(** * Mask-indexed gather / scatter in the fMRI notebooks

    The notebooks of this repository do their data wrangling with a handful
    of NumPy statements:

    - [mask_coords = np.where(mask_bool)]
    - [bold_masked = bold[mask_coords]] followed by [bold_masked.T]
    - [beta_map = np.zeros(aseg.shape); beta_map[mask_coords] = b[0]]
    - [beta_map[beta_map == 0] = np.nan]
    - the motion-censor matrix built from framewise displacement
    - [X = np.column_stack([blocks_hrf, confounds])]
    - [roi_vertices = np.where(parcellation == ...)[0]]

    This file embeds those statements as functions of their free variables.
    Arrays are C-ordered (row-major) buffers with a shape, exceptions are an
    explicit result type, and floating-point values are the IEEE 754
    specification floats of the standard library. *)

From Stdlib Require Import List Arith ZArith Lia Bool PeanoNat Sorted.
From Stdlib Require Import Floats.SpecFloat.
From Stdlib Require String DecimalString DecimalNat.
Import ListNotations.
Import String.StringSyntax.
Delimit Scope string_scope with str.

Set Implicit Arguments.

(** ** Python exceptions as results *)

Inductive exn : Type :=
| IndexError
| ValueError.

Inductive result (A : Type) : Type :=
| Ok (a : A)
| Raise (e : exn).

Arguments Ok {A} a.
Arguments Raise {A} e.

Definition bind {A B : Type} (r : result A) (k : A -> result B) : result B :=
  match r with
  | Ok a => k a
  | Raise e => Raise e
  end.

Declare Scope py_scope.
Delimit Scope py_scope with py.
Notation "x <- r ;; k" := (bind r (fun x => k))
  (at level 61, r at next level, right associativity) : py_scope.
Open Scope py_scope.

Definition raises {A : Type} (r : result A) : Prop :=
  exists e, r = Raise e.

(** ** Element types *)

Class Dtype (A : Type) : Type := { zero : A; one : A }.

#[export] Instance Dtype_Z : Dtype Z := {| zero := 0%Z; one := 1%Z |}.

(** binary64 constants: [+0.0] and [1.0 = 2^52 * 2^-52]. *)
#[export] Instance Dtype_float : Dtype spec_float :=
  {| zero := S754_zero false;
     one := S754_finite false 4503599627370496 (-52) |}.

(** ** N-dimensional arrays

    A C-contiguous array: the shape and the flat row-major buffer. *)

Record ndarray (A : Type) : Type := mk_ndarray {
  shape : list nat;
  data : list A
}.

Arguments mk_ndarray {A} shape data.

(** number of elements of an array of the given shape *)
Fixpoint size (s : list nat) : nat :=
  match s with
  | [] => 1
  | d :: s' => d * size s'
  end.

Definition ndim {A : Type} (a : ndarray A) : nat := length (shape a).

(** the buffer holds exactly the elements the shape announces *)
Definition wf {A : Type} (a : ndarray A) : Prop :=
  length (data a) = size (shape a).

(** [np.zeros(shape)] *)
Definition np_zeros {A : Type} `{Dtype A} (s : list nat) : ndarray A :=
  mk_ndarray s (repeat zero (size s)).

(** an integer index along an axis of length [d]: NumPy accepts
    [-d <= i < d] and counts negative indices from the end. *)
Definition norm_index (d : nat) (i : Z) : option nat :=
  if ((0 <=? i) && (i <? Z.of_nat d))%Z then Some (Z.to_nat i)
  else if ((- Z.of_nat d <=? i) && (i <? 0))%Z then Some (Z.to_nat (i + Z.of_nat d))
  else None.

(** the indices NumPy accepts on an axis of length [d] *)
Definition index_ok (d : nat) (i : Z) : Prop :=
  (- Z.of_nat d <= i < Z.of_nat d)%Z.

(** buffer offset of the block addressed by an index on the leading axes;
    [None] when an index is out of bounds or there are more indices than
    axes. *)
Fixpoint ravel (s : list nat) (idx : list Z) {struct idx} : option nat :=
  match idx with
  | [] => Some 0
  | i :: idx' =>
      match s with
      | [] => None
      | d :: s' =>
          match norm_index d i, ravel s' idx' with
          | Some a, Some r => Some (a * size s' + r)
          | _, _ => None
          end
      end
  end.

(** multi-index of the element at flat position [k] (row-major) *)
Fixpoint unravel (s : list nat) (k : nat) : list nat :=
  match s with
  | [] => []
  | _ :: s' => (k / size s') :: unravel s' (k mod size s')
  end.

(** element at a full multi-index *)
Definition item {A : Type} (a : ndarray A) (idx : list Z) : option A :=
  if length idx =? ndim a then
    match ravel (shape a) idx with
    | Some o => nth_error (data a) o
    | None => None
    end
  else None.

(** flat positions of the true entries, in buffer order *)
Fixpoint find_true (k : nat) (l : list bool) : list nat :=
  match l with
  | [] => []
  | b :: l' => if b then k :: find_true (S k) l' else find_true (S k) l'
  end.

Definition count_true (l : list bool) : nat := length (filter (fun b => b) l).

(** A coordinate set the way NumPy hands it around: a tuple with one index
    array per indexed axis. *)
Definition coords : Type := list (list Z).

(** the coordinate tuple for the flat positions [os] of an array of shape
    [s]: one index array per axis *)
Definition where_coords (s : list nat) (os : list nat) : coords :=
  map (fun ax => map (fun k => Z.of_nat (nth ax (unravel s k) 0)) os)
      (seq 0 (length s)).

(** [np.where(mask)] with one argument, i.e. [mask.nonzero()]: one index
    array per axis, entries in row-major order of the true elements.
    Zero-dimensional input is rejected (NumPy 2.1 and later). *)
Definition np_where (mask : ndarray bool) : result coords :=
  match shape mask with
  | [] => Raise ValueError
  | s => Ok (where_coords s (find_true 0 (data mask)))
  end.

(** *** Integer-array indexing *)

(** common length of the index arrays under broadcasting (length-1 arrays
    stretch); [None] when they cannot be broadcast together. *)
Fixpoint bcast_len (ls : list nat) : option nat :=
  match ls with
  | [] => Some 1
  | l :: ls' =>
      match bcast_len ls' with
      | Some n =>
          if n =? 1 then Some l
          else if (l =? 1) || (l =? n) then Some n
          else None
      | None => None
      end
  end.

(** the [i]-th position of a broadcast coordinate tuple *)
Definition position (c : coords) (i : nat) : list Z :=
  map (fun arr => nth (if length arr =? 1 then 0 else i) arr 0%Z) c.

Definition positions (c : coords) (n : nat) : list (list Z) :=
  map (position c) (seq 0 n).

(** buffer offsets of a list of positions, all of which must be in bounds *)
Fixpoint offsets (s : list nat) (ps : list (list Z)) : option (list nat) :=
  match ps with
  | [] => Some []
  | p :: ps' =>
      match ravel s p, offsets s ps' with
      | Some o, Some os => Some (o :: os)
      | _, _ => None
      end
  end.

(** the [len] consecutive buffer elements starting at [o] *)
Definition block {A : Type} (d : list A) (o len : nat) : list A :=
  firstn len (skipn o d).

(** the leading axes that a tuple of index arrays contributes to the result:
    one axis of the broadcast length, or none for the empty tuple. *)
Definition index_lead (c : coords) : option (list nat) :=
  match c with
  | [] => Some []
  | _ => option_map (fun n => [n]) (bcast_len (map (@length Z) c))
  end.

(** [a[c]] for a tuple [c] of integer index arrays: the result has one
    leading axis for the positions, followed by the axes of [a] that were not
    indexed.  The index arrays are broadcast together first; a failure there,
    too many indices, or an index out of bounds is an [IndexError]. *)
Definition getitem {A : Type} (a : ndarray A) (c : coords) : result (ndarray A) :=
  if ndim a <? length c then Raise IndexError
  else
    match index_lead c with
    | None => Raise IndexError
    | Some lead =>
        match offsets (shape a) (positions c (size lead)) with
        | None => Raise IndexError
        | Some os =>
            let tl := skipn (length c) (shape a) in
            Ok (mk_ndarray (lead ++ tl)
                  (flat_map (fun o => block (data a) o (size tl)) os))
        end
    end.

(** [a[t]] for one integer [t]: the [t]-th sub-array along the first axis. *)
Definition getrow {A : Type} (a : ndarray A) (t : Z) : result (ndarray A) :=
  match shape a with
  | [] => Raise IndexError
  | d :: tl =>
      match norm_index d t with
      | None => Raise IndexError
      | Some r => Ok (mk_ndarray tl (block (data a) (r * size tl) (size tl)))
      end
  end.

(** offset of a natural multi-index, no bounds involved *)
Fixpoint ravel_nat (s : list nat) (idx : list nat) : nat :=
  match s, idx with
  | _ :: s', i :: idx' => i * size s' + ravel_nat s' idx'
  | _, _ => 0
  end.

(** [a.T]: the axes in reverse order. *)
Definition transpose {A : Type} `{Dtype A} (a : ndarray A) : ndarray A :=
  let s := shape a in
  mk_ndarray (rev s)
    (map (fun k => nth (ravel_nat s (rev (unravel (rev s) k))) (data a) zero)
         (seq 0 (size s))).

(** *** Assignment through integer index arrays *)

(** assignment tolerates extra leading axes of length one on the value *)
Fixpoint strip_ones (vs : list nat) (extra : nat) : option (list nat) :=
  match extra with
  | 0 => Some vs
  | S extra' =>
      match vs with
      | 1 :: vs' => strip_ones vs' extra'
      | _ => None
      end
  end.

(** can a value of shape [vs] be broadcast to [ts]?  Both lists have the
    same length here. *)
Fixpoint bcast_ok (vs ts : list nat) : bool :=
  match vs, ts with
  | dv :: vs', dt :: ts' => ((dv =? dt) || (dv =? 1)) && bcast_ok vs' ts'
  | [], [] => true
  | _, _ => false
  end.

(** the buffer of a value of shape [vs] once broadcast to shape [ts] *)
Fixpoint bcast_data {A : Type} (vs ts : list nat) (vd : list A) : list A :=
  match vs, ts with
  | dv :: vs', dt :: ts' =>
      if dv =? dt then
        flat_map (fun i => bcast_data vs' ts' (block vd (i * size vs') (size vs')))
                 (seq 0 dt)
      else
        concat (repeat (bcast_data vs' ts' vd) dt)
  | _, _ => vd
  end.

Definition broadcast_to {A : Type} (v : ndarray A) (ts : list nat) : option (list A) :=
  let vs := shape v in
  match
    (if length ts <? length vs then strip_ones vs (length vs - length ts)
     else Some (repeat 1 (length ts - length vs) ++ vs))
  with
  | Some vs' => if bcast_ok vs' ts then Some (bcast_data vs' ts (data v)) else None
  | None => None
  end.

(** overwrite one buffer element; the offset is in range wherever this is
    used *)
Fixpoint upd {A : Type} (d : list A) (o : nat) (x : A) : list A :=
  match d, o with
  | [], _ => []
  | _ :: d', 0 => x :: d'
  | y :: d', S o' => y :: upd d' o' x
  end.

(** the element offsets of the blocks starting at [os], block after block *)
Definition block_cells (os : list nat) (len : nat) : list nat :=
  flat_map (fun o => map (fun j => o + j) (seq 0 len)) os.

(** writes happen in order, so a later write to the same cell wins *)
Definition write_all {A : Type} (d : list A) (cells : list nat) (vals : list A) : list A :=
  fold_left (fun acc ox => upd acc (fst ox) (snd ox)) (combine cells vals) d.

(** [a[c] = v], returning the updated array.  The index arrays are broadcast
    together, the value is broadcast to the shape of [a[c]] (a mismatch is a
    [ValueError]), then the indices are checked against the bounds. *)
Definition setitem {A : Type} (a : ndarray A) (c : coords) (v : ndarray A)
  : result (ndarray A) :=
  if ndim a <? length c then Raise IndexError
  else
    match index_lead c with
    | None => Raise IndexError
    | Some lead =>
        let tl := skipn (length c) (shape a) in
        match broadcast_to v (lead ++ tl) with
        | None => Raise ValueError
        | Some vals =>
            match offsets (shape a) (positions c (size lead)) with
            | None => Raise IndexError
            | Some os =>
                Ok (mk_ndarray (shape a)
                      (write_all (data a) (block_cells os (size tl)) vals))
            end
        end
    end.

(** ** The notebook statements *)

Section Masking.
Context {A : Type} `{Dtype A}.

(** [mask_coords = np.where(mask_bool)] *)
Definition mask_coords (mask_bool : ndarray bool) : result coords :=
  np_where mask_bool.

(** [bold_masked = bold[mask_coords]; bold_masked = bold_masked.T]:
    the values at the coordinates, one row per time point when the grid
    carries a time axis. *)
Definition bold_masked (bold : ndarray A) (mask_coords : coords)
  : result (ndarray A) :=
  x <- getitem bold mask_coords ;;
  Ok (transpose x).

(** [beta_map = np.zeros(aseg.shape); beta_map[mask_coords] = b[0]],
    with the shape and the assigned values as arguments. *)
Definition beta_map_dense (aseg_shape : list nat) (mask_coords : coords)
           (values : ndarray A) : result (ndarray A) :=
  setitem (np_zeros aseg_shape) mask_coords values.
End Masking.

(** binary64 constants used by the notebooks *)
Definition f3 : spec_float := S754_finite false 6755399441055744 (-51).
Definition f42 : spec_float := S754_finite false 5910974510923776 (-47).
Definition fd_threshold : spec_float := S754_finite false 4503599627370496 (-54).

(** [np.logical_or(aseg == 3, aseg == 42)] *)
Definition mask_bool (aseg : ndarray spec_float) : ndarray bool :=
  mk_ndarray (shape aseg)
    (map (fun x => SFeqb x f3 || SFeqb x f42) (data aseg)).

(** [m[m == 0] = np.nan]: every entry that compares equal to zero (either
    sign) becomes NaN; NaN itself never compares equal. *)
Definition nan_where_zero (m : ndarray spec_float) : ndarray spec_float :=
  mk_ndarray (shape m)
    (map (fun x => if SFeqb x zero then S754_nan else x) (data m)).

(** The beta-map cell: scatter the first row of the coefficient matrix [b]
    into a zero grid, then turn zeros into NaN for plotting. *)
Definition beta_map (aseg_shape : list nat) (mask_coords : coords)
           (b : ndarray spec_float) : result (ndarray spec_float) :=
  b0 <- getrow b 0%Z ;;
  m <- beta_map_dense aseg_shape mask_coords b0 ;;
  Ok (nan_where_zero m).

(** *** Motion censoring *)

Definition np_isnan (x : spec_float) : bool :=
  match x with
  | S754_nan => true
  | _ => false
  end.

(** [fd[np.isnan(fd)] = 0] *)
Definition fd_fill (fd : list spec_float) : list spec_float :=
  map (fun x => if np_isnan x then zero else x) fd.

(** [np.argwhere(fd >= fd_threshold)], as the list of volume indices *)
Definition bad_vols (fd : list spec_float) : list nat :=
  find_true 0 (map (fun x => SFleb fd_threshold x) fd).

(** [[
    fd[np.isnan(fd)] = 0
    bad_vols = np.argwhere(fd >= fd_threshold)
    censors = np.zeros((fd.shape[0], bad_vols.shape[0]))
    censors[bad_vols.T, np.arange(bad_vols.shape[0])] = 1
    ]]
    [bad_vols.T] has shape (1, k) and broadcasts against [arange(k)] to the
    k pairs (bad_vols[j], j); the scalar 1 is written at each of them. *)
Definition censors (fd0 : list spec_float) : result (ndarray spec_float) :=
  let fd := fd_fill fd0 in
  let bad := bad_vols fd in
  let k := length bad in
  setitem (np_zeros [length fd; k])
          [map Z.of_nat bad; map Z.of_nat (seq 0 k)]
          (mk_ndarray [] [one]).

(** *** Region of interest on the surface *)

(** [roi_vertices = np.where(parcellation == label)[0]] *)
Definition roi_vertices (parcellation : list Z) (label : Z) : result (list Z) :=
  c <- np_where (mk_ndarray [length parcellation]
                   (map (fun l => Z.eqb l label) parcellation)) ;;
  match c with
  | v :: _ => Ok v
  | [] => Raise IndexError
  end.

(** [roi_map = np.zeros(parcellation.shape[0], dtype=int); roi_map[roi_vertices] = 1] *)
Definition roi_map (n_vertices : nat) (roi_vertices : list Z) : result (ndarray Z) :=
  setitem (np_zeros [n_vertices]) [roi_vertices] (mk_ndarray [] [one]).

(** *** Design matrix *)

Section DesignMatrix.
Context {A : Type} `{Dtype A}.

(** [np.column_stack] first turns arrays of fewer than two dimensions into
    columns. *)
Definition as_column (a : ndarray A) : ndarray A :=
  match shape a with
  | [] => mk_ndarray [1; 1] (data a)
  | [n] => mk_ndarray [n; 1] (data a)
  | _ => a
  end.

Definition ncols (a : ndarray A) : nat := nth 1 (shape a) 0.
Definition rowlen (a : ndarray A) : nat := size (skipn 1 (shape a)).

Definition same_rows (a0 a : ndarray A) : bool :=
  match shape a0, shape a with
  | d0 :: _ :: tl0, d :: _ :: tl =>
      (d0 =? d) && if list_eq_dec Nat.eq_dec tl0 tl then true else false
  | _, _ => false
  end.

(** [np.column_stack(arrays)]: concatenation along the second axis; the
    arrays must agree on every other axis. *)
Definition np_column_stack (arrays : list (ndarray A)) : result (ndarray A) :=
  match map as_column arrays with
  | [] => Raise ValueError
  | (a0 :: rest) as cols =>
      if forallb (same_rows a0) rest then
        Ok (mk_ndarray
              (nth 0 (shape a0) 0 :: list_sum (map ncols cols) :: skipn 2 (shape a0))
              (flat_map (fun i =>
                           flat_map (fun a => block (data a) (i * rowlen a) (rowlen a)) cols)
                        (seq 0 (nth 0 (shape a0) 0))))
      else Raise ValueError
  end.

(** [X = np.column_stack([blocks_hrf, confounds])] *)
Definition X (blocks_hrf confounds : ndarray A) : result (ndarray A) :=
  np_column_stack [blocks_hrf; confounds].

(** Modelled from the spec: the intercept regressor.  The notebook cell
    that defines it is left blank; the spec asks for an intercept column
    that is constant 1, with one row per acquired volume. *)
Definition intercept (n_trs : nat) : ndarray A :=
  mk_ndarray [n_trs] (repeat one n_trs).

(** Modelled from the spec: the confound matrix.  The notebook cell that
    stacks the nuisance regressors is left blank; the spec asks for a matrix
    whose columns are the nuisance regressors and the intercept, one row per
    time point. *)
Definition confounds (nuisance : ndarray A) (n_trs : nat) : result (ndarray A) :=
  np_column_stack [nuisance; intercept n_trs].
End DesignMatrix.

(** *** Well-formed coordinate sets *)

(** every index array has the same length [n] *)
Definition rect (n : nat) (c : coords) : Prop :=
  Forall (fun arr => length arr = n) c.

(** one index array per axis of [s], every entry acceptable on its axis *)
Definition in_bounds (s : list nat) (c : coords) : Prop :=
  Forall2 (fun d arr => Forall (index_ok d) arr) s c.

(** ** Example data *)

Definition grid4x4 : ndarray Z := mk_ndarray [4; 4] (map Z.of_nat (seq 0 16)).

Definition mask4x4 : ndarray bool :=
  mk_ndarray [4; 4]
    [false; false; false; false;
     false; true;  false; false;
     false; false; true;  false;
     false; false; false; false].

Definition mask4x4_empty : ndarray bool := mk_ndarray [4; 4] (repeat false 16).

Definition grid4x5 : ndarray Z := mk_ndarray [4; 5] (map Z.of_nat (seq 0 20)).

(** two vertices, two time points *)
Definition surface2x2 : ndarray Z := mk_ndarray [2; 2] [1; 2; 3; 4]%Z.
Definition mask2 : ndarray bool := mk_ndarray [2] [true; true].

(** ** Further notebook statements *)

(** *** Looking up a label *)

(** [labels.index(roi_label)]: the position of the first occurrence; a label
    that does not occur is a [ValueError]. *)
Fixpoint list_index (labels : list String.string) (roi_label : String.string)
  : result nat :=
  match labels with
  | [] => Raise ValueError
  | l :: labels' =>
      if String.eqb l roi_label then Ok 0
      else i <- list_index labels' roi_label ;; Ok (S i)
  end.

(** [roi_vertices = np.where(parcellation == labels.index(roi_label))[0]],
    starting from the label's name *)
Definition roi_vertices_of_label (parcellation : list Z)
           (labels : list String.string) (roi_label : String.string)
  : result (list Z) :=
  i <- list_index labels roi_label ;;
  roi_vertices parcellation (Z.of_nat i).

(** *** Censor labels *)

(** [str(c)] for a non-negative integer: its decimal digits *)
Definition str_of_nat (c : nat) : String.string :=
  DecimalString.NilZero.string_of_uint (Nat.to_uint c).

(** [censor_labels = [f'censor{c}' for c in np.arange(censors.shape[1])]];
    [shape[1]] of an array with fewer than two axes is an [IndexError]. *)
Definition censor_labels {A : Type} (censors : ndarray A)
  : result (list String.string) :=
  match shape censors with
  | _ :: k :: _ =>
      Ok (map (fun c => String.append "censor" (str_of_nat c)) (seq 0 k))
  | _ => Raise IndexError
  end.

(** *** Contrast vector *)

(** [a[t] = v] for one integer [t]: the [t]-th sub-array along the first
    axis is overwritten with [v], broadcast to its shape.  The index is
    checked first, then the value. *)
Definition setrow {A : Type} (a : ndarray A) (t : Z) (v : ndarray A)
  : result (ndarray A) :=
  match shape a with
  | [] => Raise IndexError
  | d :: tl =>
      match norm_index d t with
      | None => Raise IndexError
      | Some r =>
          match broadcast_to v tl with
          | None => Raise ValueError
          | Some vals =>
              Ok (mk_ndarray (shape a)
                    (write_all (data a)
                       (map (fun j => r * size tl + j) (seq 0 (size tl)))
                       vals))
          end
      end
  end.

(** [contrast = np.zeros(len(columns)); contrast[0] = 1] *)
Definition contrast {A : Type} `{Dtype A} (n_columns : nat) : result (ndarray A) :=
  setrow (np_zeros [n_columns]) 0%Z (mk_ndarray [] [one]).

(** *** Confounds handed to Nilearn *)

(** a Python dict as the list of its items in insertion order, keys unique *)
Definition dict (V : Type) : Type := list (String.string * V).

(** [d[k] = v]: an existing key keeps its place and takes the new value *)
Fixpoint dict_set {V : Type} (d : dict V) (k : String.string) (v : V) : dict V :=
  match d with
  | [] => [(k, v)]
  | (k', v') :: d' =>
      if String.eqb k' k then (k, v) :: d' else (k', v') :: dict_set d' k v
  end.

(** [d.get(k)] *)
Fixpoint dict_get {V : Type} (d : dict V) (k : String.string) : option V :=
  match d with
  | [] => None
  | (k', v) :: d' => if String.eqb k' k then Some v else dict_get d' k
  end.

(** iterating over an array yields its sub-arrays along the first axis;
    NumPy refuses to iterate over a zero-dimensional array (a [TypeError]),
    rendered here as [None]. *)
Definition iter_rows {A : Type} (a : ndarray A) : option (list (ndarray A)) :=
  match shape a with
  | [] => None
  | d :: tl =>
      Some (map (fun r => mk_ndarray tl (block (data a) (r * size tl) (size tl)))
                (seq 0 d))
  end.

(** one step of the comprehension below: the pair is stored unless its
    label is ['intercept'] *)
Definition keep_confound {V : Type} (d : dict V) (lc : String.string * V)
  : dict V :=
  if String.eqb (fst lc) "intercept" then d
  else dict_set d (fst lc) (snd lc).

(** [{l: c for l, c in zip(confound_labels, confounds.T) if l != 'intercept'}] *)
Definition confounds_df {A : Type} `{Dtype A}
           (confound_labels : list String.string) (confounds : ndarray A)
  : option (dict (ndarray A)) :=
  match iter_rows (transpose confounds) with
  | None => None
  | Some cols =>
      Some (fold_left keep_confound (combine confound_labels cols) [])
  end.

(** *** Leaving out the medial wall *)

(** [a[mask]] for a boolean array [mask]: the elements of [a] at the true
    positions of the mask, read through the mask's nonzero coordinates.  The
    mask has to match the leading axes of [a], otherwise NumPy raises an
    [IndexError]; a zero-dimensional mask adds an axis of length one or
    zero. *)
Definition getitem_bool {A : Type} (a : ndarray A) (mask : ndarray bool)
  : result (ndarray A) :=
  match shape mask with
  | [] =>
      match data mask with
      | true :: _ => Ok (mk_ndarray (1 :: shape a) (data a))
      | _ => Ok (mk_ndarray (0 :: shape a) [])
      end
  | s =>
      if list_eq_dec Nat.eq_dec (firstn (length s) (shape a)) s then
        c <- np_where mask ;; getitem a c
      else Raise IndexError
  end.

(** [parcellation[parcellation != medial_label]], the array that the
    notebook sorts *)
Definition non_medial (parcellation : list Z) (medial_label : Z)
  : result (ndarray Z) :=
  getitem_bool (mk_ndarray [length parcellation] parcellation)
    (mk_ndarray [length parcellation]
       (map (fun l => negb (Z.eqb l medial_label)) parcellation)).

(** *** Predicates used in the statements *)

(** the test behind the gray-matter mask: label 3 or label 42 *)
Definition is_cortex (x : spec_float) : bool := SFeqb x f3 || SFeqb x f42.

(** the mask [parcellation == label] *)
Definition label_mask (parcellation : list Z) (label : Z) : ndarray bool :=
  mk_ndarray [length parcellation] (map (fun l => Z.eqb l label) parcellation).

(** * Properties *)

Lemma ok_not_raises {A : Type} (r : result A) (a : A) :
  r = Ok a -> ~ raises r.
Proof. intros -> [e He]. discriminate. Qed.

(** ** Buffers: reading, overwriting, blocks *)

Lemma nth_map_in {X Y : Type} (f : X -> Y) (l : list X) i dx dy :
  i < length l -> nth i (map f l) dy = f (nth i l dx).
Proof.
  intros Hi.
  rewrite nth_indep with (d' := f dx) by now rewrite length_map.
  apply map_nth.
Qed.

Section Buffers.
Context {A : Type}.
Implicit Types (d vals : list A) (cells : list nat).

Lemma upd_length d o x : length (upd d o x) = length d.
Proof.
  revert o; induction d as [|y d IH]; intros [|o]; simpl; auto.
Qed.

Lemma nth_upd_same d o x dflt :
  o < length d -> nth o (upd d o x) dflt = x.
Proof.
  revert o; induction d as [|y d IH]; intros [|o] Ho; simpl in *;
    try lia; auto.
  apply IH; lia.
Qed.

Lemma nth_upd_other d o x k dflt :
  k <> o -> nth k (upd d o x) dflt = nth k d dflt.
Proof.
  revert o k; induction d as [|y d IH]; intros [|o] [|k] Hk; simpl;
    try congruence; auto.
Qed.

Lemma write_all_length d cells vals :
  length (write_all d cells vals) = length d.
Proof.
  unfold write_all.
  revert d vals; induction cells as [|o cells IH]; intros d [|v vals];
    simpl; auto.
  rewrite IH. apply upd_length.
Qed.

Lemma write_all_cons d o cells v vals :
  write_all d (o :: cells) (v :: vals) = write_all (upd d o v) cells vals.
Proof. reflexivity. Qed.

(** a cell that is not written keeps its content *)
Lemma write_all_notin d cells vals k dflt :
  ~ In k cells ->
  nth k (write_all d cells vals) dflt = nth k d dflt.
Proof.
  revert d vals; induction cells as [|o cells IH]; intros d [|v vals] Hk;
    try reflexivity.
  rewrite write_all_cons, IH by (simpl in Hk; tauto).
  apply nth_upd_other. simpl in Hk. intros ->. tauto.
Qed.

(** with distinct cells, the [i]-th cell receives the [i]-th value *)
Lemma write_all_nth d cells vals i dflt :
  NoDup cells ->
  length vals = length cells ->
  i < length cells ->
  nth i cells 0 < length d ->
  nth (nth i cells 0) (write_all d cells vals) dflt = nth i vals dflt.
Proof.
  revert d vals i; induction cells as [|o cells IH];
    intros d [|v vals] i Hnd Hlen Hi Ho; simpl in *; try lia.
  inversion Hnd as [|? ? Hnotin Hnd']; subst.
  rewrite write_all_cons.
  destruct i as [|i].
  - rewrite write_all_notin by assumption.
    now apply nth_upd_same.
  - apply IH; auto; try lia.
    now rewrite upd_length.
Qed.

(** writing one and the same value: every written cell holds it *)
Lemma write_all_const d cells x k dflt :
  In k cells -> k < length d ->
  nth k (write_all d cells (repeat x (length cells))) dflt = x.
Proof.
  revert d; induction cells as [|o cells IH]; intros d Hin Hk;
    simpl in *; [tauto|].
  rewrite write_all_cons.
  destruct (in_dec Nat.eq_dec k cells) as [Hc|Hc].
  - apply IH; auto. now rewrite upd_length.
  - rewrite write_all_notin by assumption.
    destruct Hin as [->|Hin]; [|tauto].
    now apply nth_upd_same.
Qed.

(** writing values that are a function of the cell *)
Lemma write_all_map d cells (f : nat -> A) k dflt :
  k < length d ->
  nth k (write_all d cells (map f cells)) dflt
  = if in_dec Nat.eq_dec k cells then f k else nth k d dflt.
Proof.
  revert d; induction cells as [|o cells IH]; intros d Hk; simpl map.
  - reflexivity.
  - rewrite write_all_cons, IH by now rewrite upd_length.
    destruct (in_dec Nat.eq_dec k cells) as [Hc|Hc];
      destruct (in_dec Nat.eq_dec k (o :: cells)) as [Hc'|Hc'];
      simpl in *; try tauto.
    + destruct Hc' as [->|]; [|tauto].
      now apply nth_upd_same.
    + apply nth_upd_other. intros ->. tauto.
Qed.

Lemma block_length d o len :
  o + len <= length d -> length (block d o len) = len.
Proof.
  intros Hle. unfold block. rewrite length_firstn, length_skipn. lia.
Qed.

Lemma nth_block d o len i dflt :
  i < len -> nth i (block d o len) dflt = nth (o + i) d dflt.
Proof.
  intros Hi. unfold block.
  rewrite nth_firstn.
  destruct (Nat.ltb_spec i len); [|lia].
  now rewrite nth_skipn.
Qed.

Lemma block_one d o dflt :
  o < length d -> block d o 1 = [nth o d dflt].
Proof.
  intros Ho.
  apply nth_ext with (d := dflt) (d' := dflt).
  - rewrite block_length; simpl; lia.
  - intros i Hi. rewrite block_length in Hi by lia.
    assert (i = 0) as -> by lia.
    rewrite nth_block by lia. now rewrite Nat.add_0_r.
Qed.

(** reading a list position by position gives the list back *)
Lemma map_nth_seq d dflt :
  map (fun i => nth i d dflt) (seq 0 (length d)) = d.
Proof.
  apply nth_ext with (d := dflt) (d' := dflt).
  - now rewrite length_map, length_seq.
  - intros i Hi. rewrite length_map, length_seq in Hi.
    rewrite nth_indep with (d' := nth 0 d dflt)
      by now rewrite length_map, length_seq.
    rewrite (map_nth (fun i => nth i d dflt) (seq 0 (length d)) 0 i).
    now rewrite seq_nth.
Qed.

(** position [i * B + t] of a concatenation of blocks of length [B] *)
Lemma nth_flat_map_blocks {X : Type} (f : X -> list A) (l : list X) B i t dx dflt :
  (forall x, In x l -> length (f x) = B) ->
  i < length l -> t < B ->
  nth (i * B + t) (flat_map f l) dflt = nth t (f (nth i l dx)) dflt.
Proof.
  revert i; induction l as [|x l IH]; intros i Hlen Hi Ht; simpl in *;
    [lia|].
  destruct i as [|i].
  - rewrite app_nth1 by (rewrite Hlen; auto; lia). reflexivity.
  - rewrite app_nth2 by (rewrite Hlen; auto; lia).
    rewrite Hlen by auto.
    replace (S i * B + t - B) with (i * B + t) by lia.
    apply IH; auto; lia.
Qed.

Lemma flat_map_blocks_length {X : Type} (f : X -> list A) (l : list X) B :
  (forall x, In x l -> length (f x) = B) ->
  length (flat_map f l) = length l * B.
Proof.
  induction l as [|x l IH]; intros Hlen; simpl in *; auto.
  rewrite length_app, Hlen, IH by auto. lia.
Qed.
End Buffers.

(** ** Shapes and row-major offsets *)

Lemma size_app s t : size (s ++ t) = size s * size t.
Proof.
  induction s as [|d s IH]; simpl; [lia|].
  rewrite IH. lia.
Qed.

Lemma size_one d : size [d] = d.
Proof. simpl. lia. Qed.

Lemma unravel_length s k : length (unravel s k) = length s.
Proof.
  revert k; induction s as [|d s IH]; intros k; simpl; auto.
Qed.

Lemma norm_index_nat d a :
  a < d -> norm_index d (Z.of_nat a) = Some a.
Proof.
  intros Ha. unfold norm_index.
  destruct (Z.leb_spec 0 (Z.of_nat a)); [|lia].
  destruct (Z.ltb_spec (Z.of_nat a) (Z.of_nat d)); [|lia].
  simpl. now rewrite Nat2Z.id.
Qed.

Lemma norm_index_some d i :
  index_ok d i -> exists a, norm_index d i = Some a /\ a < d.
Proof.
  unfold index_ok, norm_index. intros Hi.
  destruct (Z.leb_spec 0 i); destruct (Z.ltb_spec i (Z.of_nat d));
    simpl; try lia.
  - exists (Z.to_nat i). split; [reflexivity | lia].
  - destruct (Z.leb_spec (- Z.of_nat d) i); [|lia].
    destruct (Z.ltb_spec i 0); [|lia].
    simpl. exists (Z.to_nat (i + Z.of_nat d)). split; [reflexivity | lia].
Qed.

Lemma norm_index_none d i :
  ~ index_ok d i -> norm_index d i = None.
Proof.
  unfold index_ok, norm_index. intros Hi.
  destruct (Z.leb_spec 0 i); destruct (Z.ltb_spec i (Z.of_nat d));
    simpl; try lia; try reflexivity;
    destruct (Z.leb_spec (- Z.of_nat d) i); destruct (Z.ltb_spec i 0);
    simpl; try lia; reflexivity.
Qed.

Lemma norm_index_bound d i a :
  norm_index d i = Some a -> a < d.
Proof.
  unfold norm_index.
  destruct (Z.leb_spec 0 i); destruct (Z.ltb_spec i (Z.of_nat d));
    simpl; try (intros [= <-]; lia);
    destruct (Z.leb_spec (- Z.of_nat d) i); destruct (Z.ltb_spec i 0);
    simpl; try discriminate; intros [= <-]; lia.
Qed.

(** [ravel] inverts [unravel] on the positions of the buffer *)
Lemma ravel_unravel s k :
  k < size s -> ravel s (map Z.of_nat (unravel s k)) = Some k.
Proof.
  revert k; induction s as [|d s IH]; intros k Hk; simpl in *.
  - f_equal. lia.
  - assert (size s <> 0) as Hnz by (intros E; rewrite E in Hk; lia).
    rewrite norm_index_nat.
    + rewrite IH by now apply Nat.mod_upper_bound.
      f_equal. rewrite (Nat.div_mod_eq k (size s)) at 3. lia.
    + apply Nat.Div0.div_lt_upper_bound. lia.
Qed.

(** a full index addresses a cell of the buffer *)
Lemma ravel_bound s p k :
  length p = length s -> ravel s p = Some k -> k < size s.
Proof.
  revert p k; induction s as [|d s IH]; intros [|i p] k Hlen Hr;
    simpl in *; try discriminate.
  - injection Hr as <-. lia.
  - destruct (norm_index d i) as [a|] eqn:Ha; [|discriminate].
    destruct (ravel s p) as [r|] eqn:Hp; [|discriminate].
    injection Hr as <-.
    apply norm_index_bound in Ha.
    specialize (IH p r ltac:(lia) Hp). nia.
Qed.

(** an index on the leading axes [sp] of an array of shape [sp ++ tl]
    addresses a block of [size tl] cells *)
Lemma ravel_app_prefix sp tl p :
  length p = length sp ->
  ravel (sp ++ tl) p = option_map (fun o => o * size tl) (ravel sp p).
Proof.
  revert p; induction sp as [|d sp IH]; intros [|i p] Hlen;
    simpl in *; try discriminate; try reflexivity.
  rewrite IH by lia.
  destruct (norm_index d i) as [a|]; [|reflexivity].
  destruct (ravel sp p) as [r|]; simpl; [|reflexivity].
  f_equal. rewrite size_app. lia.
Qed.

Lemma ravel_app_full sp tl p q k r :
  length p = length sp ->
  ravel sp p = Some k -> ravel tl q = Some r ->
  ravel (sp ++ tl) (p ++ q) = Some (k * size tl + r).
Proof.
  revert p k; induction sp as [|d sp IH]; intros [|i p] k Hlen Hp Hq;
    simpl in *; try discriminate.
  - injection Hp as <-. now rewrite Hq.
  - destruct (norm_index d i) as [a|]; [|discriminate].
    destruct (ravel sp p) as [r'|] eqn:Hr'; [|discriminate].
    injection Hp as <-.
    rewrite (IH p r') by (auto; lia).
    f_equal. rewrite size_app. lia.
Qed.

(** ** True entries of a mask *)

Lemma find_true_In a l k :
  In k (find_true a l) <-> a <= k /\ nth (k - a) l false = true.
Proof.
  revert a; induction l as [|b l IH]; intros a; simpl.
  - split; [tauto|]. intros [_ H]. destruct (k - a); discriminate.
  - assert (In k (find_true (S a) l) <-> S a <= k /\ nth (k - S a) l false = true)
      as IH' by apply IH.
    destruct (Nat.eq_dec k a) as [->|Hne].
    + rewrite Nat.sub_diag.
      destruct b; simpl; [intuition auto|].
      rewrite IH'. split; [lia|]. intros [_ ?]; discriminate.
    + assert (forall P : Prop, (a = k \/ P) <-> P) as Hor
        by (intros P; split; [intros [?|?]; [congruence|auto] | auto]).
      destruct (k - a) as [|j] eqn:Hj.
      * destruct b; simpl; rewrite ?Hor, IH'; split; lia.
      * replace (k - S a) with j in IH' by lia.
        destruct b; simpl; rewrite ?Hor, IH'; split; intros [? ?]; split;
          auto; lia.
Qed.

Lemma find_true_bound a l k :
  In k (find_true a l) -> k < a + length l.
Proof.
  rewrite find_true_In. intros [Hle Hn].
  destruct (Nat.lt_ge_cases (k - a) (length l)) as [?|Hge]; [lia|].
  rewrite nth_overflow in Hn by assumption. discriminate.
Qed.

Lemma find_true_length a l :
  length (find_true a l) = count_true l.
Proof.
  unfold count_true.
  revert a; induction l as [|b l IH]; intros a; simpl; auto.
  destruct b; simpl; now rewrite IH.
Qed.

(** the true positions come in strictly increasing buffer order *)
Lemma find_true_sorted a l :
  StronglySorted lt (find_true a l).
Proof.
  revert a; induction l as [|b l IH]; intros a; simpl.
  - constructor.
  - destruct b; [|apply IH].
    constructor; [apply IH|].
    apply Forall_forall. intros k Hk.
    apply find_true_In in Hk. lia.
Qed.

Lemma sorted_lt_NoDup l :
  StronglySorted lt l -> NoDup l.
Proof.
  induction 1 as [|x l Hs IH Hall]; constructor; auto.
  intros Hin. rewrite Forall_forall in Hall.
  specialize (Hall x Hin). lia.
Qed.

Lemma find_true_NoDup a l : NoDup (find_true a l).
Proof. apply sorted_lt_NoDup, find_true_sorted. Qed.

Lemma find_true_none a l :
  count_true l = 0 -> find_true a l = [].
Proof.
  intros Hc. rewrite <- (find_true_length a) in Hc.
  now apply length_zero_iff_nil.
Qed.

(** ** Coordinate tuples *)

Lemma np_where_ok (m : ndarray bool) :
  shape m <> [] ->
  np_where m = Ok (where_coords (shape m) (find_true 0 (data m))).
Proof.
  unfold np_where.
  destruct (shape m); [congruence | reflexivity].
Qed.

Lemma bcast_len_rect n (c : coords) :
  c <> [] -> rect n c -> bcast_len (map (@length Z) c) = Some n.
Proof.
  induction c as [|arr c IH]; intros Hne Hr; [congruence|].
  inversion Hr as [|? ? Harr Hr']; subst. simpl.
  destruct c as [|arr' c].
  - reflexivity.
  - rewrite IH by (auto; congruence).
    destruct (length arr =? 1) eqn:E1; [reflexivity|].
    now rewrite Nat.eqb_refl, orb_true_r.
Qed.

Lemma index_lead_rect n (c : coords) :
  c <> [] -> rect n c -> index_lead c = Some [n].
Proof.
  intros Hne Hr. unfold index_lead.
  destruct c; [congruence|].
  now rewrite (bcast_len_rect (n := n)) by (auto; congruence).
Qed.

Lemma position_length c i : length (position c i) = length c.
Proof. unfold position. apply length_map. Qed.

Lemma position_rect n c i :
  rect n c -> i < n ->
  position c i = map (fun arr => nth i arr 0%Z) c.
Proof.
  intros Hr Hi. unfold position, rect in *.
  apply map_ext_in. intros arr Harr.
  rewrite Forall_forall in Hr. rewrite (Hr arr Harr).
  destruct (Nat.eqb_spec n 1); [|reflexivity].
  f_equal. lia.
Qed.

Lemma offsets_length s ps os :
  offsets s ps = Some os -> length os = length ps.
Proof.
  revert os; induction ps as [|p ps IH]; intros os; simpl.
  - now intros [= <-].
  - destruct (ravel s p); [|discriminate].
    destruct (offsets s ps) as [os'|]; [|discriminate].
    intros [= <-]. simpl. f_equal. now apply IH.
Qed.

Lemma offsets_map {X : Type} s (g : X -> list Z) (f : X -> nat) l :
  (forall x, In x l -> ravel s (g x) = Some (f x)) ->
  offsets s (map g l) = Some (map f l).
Proof.
  induction l as [|x l IH]; intros Hr; simpl; [reflexivity|].
  rewrite Hr by (simpl; auto).
  rewrite IH by (intros; apply Hr; simpl; auto).
  reflexivity.
Qed.

Lemma offsets_none s ps p :
  In p ps -> ravel s p = None -> offsets s ps = None.
Proof.
  induction ps as [|q ps IH]; intros Hin Hp; simpl in *; [tauto|].
  destruct Hin as [->|Hin].
  - now rewrite Hp.
  - rewrite (IH Hin Hp). now destruct (ravel s q).
Qed.

Lemma offsets_in s ps os o :
  offsets s ps = Some os -> In o os ->
  exists p, In p ps /\ ravel s p = Some o.
Proof.
  revert os; induction ps as [|p ps IH]; intros os; simpl.
  - intros [= <-] [].
  - destruct (ravel s p) as [o'|] eqn:Hp; [|discriminate].
    destruct (offsets s ps) as [os'|]; [|discriminate].
    intros [= <-] [<-|Hin].
    + exists p; auto.
    + destruct (IH os' eq_refl Hin) as (q & Hq & Hr). exists q; auto.
Qed.

Lemma offsets_app_prefix sp tl ps :
  (forall p, In p ps -> length p = length sp) ->
  offsets (sp ++ tl) ps
  = option_map (map (fun o => o * size tl)) (offsets sp ps).
Proof.
  induction ps as [|p ps IH]; intros Hlen; simpl; [reflexivity|].
  rewrite ravel_app_prefix by (apply Hlen; simpl; auto).
  rewrite IH by (intros; apply Hlen; simpl; auto).
  destruct (ravel sp p); simpl; [|reflexivity].
  now destruct (offsets sp ps).
Qed.

Lemma ravel_index_ok s p :
  Forall2 index_ok s p -> exists k, ravel s p = Some k.
Proof.
  induction 1 as [|d i s p Hi Hrest [r Hr]]; simpl.
  - now exists 0.
  - destruct (norm_index_some Hi) as (a & -> & _).
    rewrite Hr. eauto.
Qed.

(** an index outside the accepted range makes the whole position invalid *)
Lemma ravel_oob s p j :
  j < length p ->
  ~ index_ok (nth j s 0) (nth j p 0%Z) ->
  ravel s p = None.
Proof.
  revert s j; induction p as [|i p IH]; intros s j Hj Hbad; simpl in *;
    [lia|].
  destruct s as [|d s]; [reflexivity|].
  destruct j as [|j]; simpl in Hbad.
  - now rewrite norm_index_none.
  - rewrite (IH s j) by (auto; lia).
    now destruct (norm_index d i).
Qed.

Lemma in_bounds_position s c n i :
  in_bounds s c -> rect n c -> i < n ->
  Forall2 index_ok s (map (fun arr => nth i arr 0%Z) c).
Proof.
  intros Hb; induction Hb as [|d arr s c Harr Hb IH]; intros Hr Hi; simpl.
  - constructor.
  - inversion Hr as [|? ? Hlen Hr']; subst.
    constructor; auto.
    rewrite Forall_forall in Harr. apply Harr, nth_In. lia.
Qed.

Lemma offsets_in_bounds s c n :
  in_bounds s c -> rect n c ->
  exists os, offsets s (positions c n) = Some os /\ length os = n.
Proof.
  intros Hb Hr.
  assert (forall l, (forall i, In i l -> i < n) ->
                    exists os, offsets s (map (position c) l) = Some os)
    as Hall.
  { induction l as [|i l IH]; intros Hl; simpl; [eauto|].
    rewrite (position_rect Hr) by (apply Hl; simpl; auto).
    destruct (ravel_index_ok (in_bounds_position (i := i) Hb Hr
                                ltac:(apply Hl; simpl; auto))) as [k ->].
    destruct IH as [os ->]; [intros; apply Hl; simpl; auto|].
    eauto. }
  destruct (Hall (seq 0 n)) as [os Hos].
  { intros i Hi. apply in_seq in Hi. lia. }
  exists os. split; [exact Hos|].
  apply offsets_length in Hos.
  now rewrite Hos, length_map, length_seq.
Qed.

Lemma where_coords_length s os : length (where_coords s os) = length s.
Proof. unfold where_coords. now rewrite length_map, length_seq. Qed.

Lemma where_coords_rect s os : rect (length os) (where_coords s os).
Proof.
  unfold rect, where_coords. apply Forall_forall.
  intros arr Harr. apply in_map_iff in Harr as (ax & <- & _).
  apply length_map.
Qed.

Lemma map_nth_of_seq {X Y : Type} (f : X -> Y) (l : list X) dx :
  map (fun i => f (nth i l dx)) (seq 0 (length l)) = map f l.
Proof.
  rewrite <- (map_nth_seq l dx) at 2.
  now rewrite map_map.
Qed.

Lemma where_coords_position s os i :
  i < length os ->
  position (where_coords s os) i
  = map Z.of_nat (unravel s (nth i os 0)).
Proof.
  intros Hi.
  rewrite (position_rect (where_coords_rect s os) Hi).
  unfold where_coords. rewrite map_map.
  rewrite <- (map_nth_of_seq Z.of_nat (unravel s (nth i os 0)) 0).
  rewrite unravel_length.
  apply map_ext. intros ax.
  rewrite nth_indep with (d' := Z.of_nat (nth ax (unravel s 0) 0))
    by now rewrite length_map.
  now rewrite (map_nth (fun k => Z.of_nat (nth ax (unravel s k) 0)) os 0 i).
Qed.

(** the coordinates of [np.where] address exactly the true positions, in
    the same order *)
Lemma where_coords_offsets s os :
  (forall k, In k os -> k < size s) ->
  offsets s (positions (where_coords s os) (length os)) = Some os.
Proof.
  intros Hos. unfold positions.
  rewrite (offsets_map s (position (where_coords s os))
                       (fun i => nth i os 0)).
  - now rewrite map_nth_seq.
  - intros i Hi. apply in_seq in Hi.
    rewrite where_coords_position by lia.
    apply ravel_unravel, Hos, nth_In. lia.
Qed.

Lemma skipn_length_app {X : Type} n (l1 l2 : list X) :
  n = length l1 -> skipn n (l1 ++ l2) = l2.
Proof.
  intros ->. rewrite skipn_app, skipn_all, Nat.sub_diag. reflexivity.
Qed.

(** ** Reading through index arrays *)

Lemma getitem_ok {A : Type} (g : ndarray A) (c : coords) sp tl n os :
  c <> [] -> rect n c -> length c = length sp ->
  shape g = sp ++ tl ->
  offsets sp (positions c n) = Some os ->
  getitem g c
  = Ok (mk_ndarray (n :: tl)
          (flat_map (fun o => block (data g) o (size tl))
                    (map (fun o => o * size tl) os))).
Proof.
  intros Hne Hr Hlen Hs Hos. unfold getitem, ndim.
  rewrite Hs, length_app.
  destruct (Nat.ltb_spec (length sp + length tl) (length c)); [lia|].
  rewrite (index_lead_rect Hne Hr), size_one.
  rewrite offsets_app_prefix, Hos.
  - simpl option_map. cbv iota beta.
    now rewrite (skipn_length_app sp tl Hlen).
  - intros p Hp. unfold positions in Hp.
    apply in_map_iff in Hp as (i & <- & _).
    now rewrite position_length.
Qed.

(** an index outside the bounds of its axis is an [IndexError] *)
Lemma getitem_oob {A : Type} (g : ndarray A) (c : coords) n j i :
  rect n c -> j < length c -> i < n ->
  ~ index_ok (nth j (shape g) 0) (nth i (nth j c []) 0%Z) ->
  getitem g c = Raise IndexError.
Proof.
  intros Hr Hj Hi Hbad. unfold getitem.
  destruct (ndim g <? length c); [reflexivity|].
  assert (c <> []) as Hne by (destruct c; simpl in *; [lia | congruence]).
  rewrite (index_lead_rect Hne Hr), size_one.
  rewrite (@offsets_none (shape g) (positions c n) (position c i)).
  - reflexivity.
  - unfold positions. apply in_map, in_seq. lia.
  - rewrite (position_rect Hr Hi).
    apply ravel_oob with (j := j).
    + now rewrite length_map.
    + rewrite nth_indep with (d' := nth i [] 0%Z) by now rewrite length_map.
      now rewrite (map_nth (fun arr => nth i arr 0%Z) c [] j).
Qed.

(** ** Transposition and rows *)

Section Transpose.
Context {A : Type} `{Dtype A}.

Lemma transpose_shape (a : ndarray A) :
  shape (transpose a) = rev (shape a).
Proof. reflexivity. Qed.

Lemma transpose_data_length (a : ndarray A) :
  length (data (transpose a)) = size (shape a).
Proof. unfold transpose. simpl. now rewrite length_map, length_seq. Qed.

Lemma nth_map_seq (f : nat -> A) n k dflt :
  k < n -> nth k (map f (seq 0 n)) dflt = f k.
Proof.
  intros Hk.
  rewrite nth_indep with (d' := f 0) by now rewrite length_map, length_seq.
  rewrite (map_nth f (seq 0 n) 0 k). now rewrite seq_nth.
Qed.

(** a one-dimensional array is its own transpose *)
Lemma transpose_1d (a : ndarray A) n :
  shape a = [n] -> length (data a) = n -> transpose a = a.
Proof.
  destruct a as [s d]; simpl. intros -> Hlen.
  unfold transpose. cbn [shape data rev app]. f_equal.
  rewrite size_one, <- Hlen.
  rewrite <- (map_nth_seq d zero) at 2.
  apply map_ext. intros k.
  cbn [unravel rev app ravel_nat size].
  rewrite Nat.div_1_r. f_equal. lia.
Qed.

(** entry [(t, i)] of the transpose of an [n] by [T] matrix is entry
    [(i, t)] of the matrix *)
Lemma transpose_2d_nth (a : ndarray A) n T i t :
  shape a = [n; T] -> i < n -> t < T ->
  nth (t * n + i) (data (transpose a)) zero
  = nth (i * T + t) (data a) zero.
Proof.
  intros Hs Hi Ht. unfold transpose. rewrite Hs. cbn [data].
  rewrite nth_map_seq by (cbn [size]; nia).
  cbn [unravel rev app ravel_nat size].
  rewrite !Nat.mul_1_r, Nat.div_1_r.
  replace ((t * n + i) / n) with t by (apply Nat.div_unique with i; lia).
  replace ((t * n + i) mod n) with i by (apply Nat.mod_unique with t; lia).
  f_equal. lia.
Qed.

Lemma getrow_ok (a : ndarray A) d tl t :
  shape a = d :: tl -> t < d ->
  getrow a (Z.of_nat t)
  = Ok (mk_ndarray tl (block (data a) (t * size tl) (size tl))).
Proof.
  intros Hs Ht. unfold getrow. rewrite Hs.
  now rewrite norm_index_nat.
Qed.
End Transpose.

(** ** Writing through index arrays *)

Section SetItem.
Context {A : Type}.

Lemma flat_map_block_one (vd : list A) :
  flat_map (fun i => block vd (i * 1) 1) (seq 0 (length vd)) = vd.
Proof.
  destruct vd as [|x0 vd0] eqn:E; [reflexivity|]. rewrite <- E.
  assert (forall l, (forall i, In i l -> i < length vd) ->
                    flat_map (fun i => block vd (i * 1) 1) l
                    = map (fun i => nth i vd x0) l) as Hl.
  { induction l as [|i l IH]; intros Hin; simpl; [reflexivity|].
    rewrite Nat.mul_1_r, (@block_one _ vd i x0) by (apply Hin; simpl; auto).
    rewrite IH by (intros; apply Hin; simpl; auto).
    reflexivity. }
  rewrite Hl, map_nth_seq; [reflexivity|].
  intros i Hi. apply in_seq in Hi. lia.
Qed.

Lemma bcast_data_1d n (vd : list A) :
  length vd = n -> bcast_data [n] [n] vd = vd.
Proof.
  intros <-. cbn [bcast_data size]. rewrite Nat.eqb_refl.
  apply flat_map_block_one.
Qed.

(** a vector of the right length is taken as it is *)
Lemma broadcast_to_1d (v : ndarray A) n :
  shape v = [n] -> length (data v) = n ->
  broadcast_to v [n] = Some (data v).
Proof.
  intros Hs Hlen. unfold broadcast_to. rewrite Hs. cbn -[bcast_data].
  rewrite Nat.eqb_refl. cbn -[bcast_data].
  now rewrite bcast_data_1d.
Qed.

(** a vector of any other length is refused, unless its length is one *)
Lemma broadcast_to_1d_fail (v : ndarray A) len n :
  shape v = [len] -> len <> n -> len <> 1 ->
  broadcast_to v [n] = None.
Proof.
  intros Hs Hn H1. unfold broadcast_to. rewrite Hs. cbn.
  destruct (Nat.eqb_spec len n); [congruence|].
  destruct (Nat.eqb_spec len 1); [congruence|].
  reflexivity.
Qed.

Lemma concat_repeat_one (x : A) n : concat (repeat [x] n) = repeat x n.
Proof. induction n as [|n IH]; simpl; congruence. Qed.

(** a scalar is repeated at every position *)
Lemma broadcast_to_scalar (x : A) n :
  broadcast_to (mk_ndarray [] [x]) [n] = Some (repeat x n).
Proof.
  unfold broadcast_to.
  cbn [shape data length Nat.ltb Nat.leb Nat.sub repeat app bcast_ok bcast_data].
  destruct (Nat.eqb_spec 1 n) as [<-|Hn].
  - reflexivity.
  - cbn [orb andb Nat.eqb]. f_equal. apply concat_repeat_one.
Qed.

Lemma block_cells_one os : block_cells os 1 = os.
Proof.
  unfold block_cells. induction os as [|o os IH]; simpl; [reflexivity|].
  rewrite Nat.add_0_r. f_equal. exact IH.
Qed.

(** assignment at coordinates that index every axis *)
Lemma setitem_full (a : ndarray A) (c : coords) (v : ndarray A) n vals os :
  c <> [] -> rect n c -> length c = ndim a ->
  broadcast_to v [n] = Some vals ->
  offsets (shape a) (positions c n) = Some os ->
  setitem a c v = Ok (mk_ndarray (shape a) (write_all (data a) os vals)).
Proof.
  intros Hne Hr Hlen Hv Hos. unfold setitem.
  rewrite Hlen, Nat.ltb_irrefl.
  rewrite (index_lead_rect Hne Hr), size_one.
  unfold ndim. rewrite skipn_all, app_nil_r, Hv, Hos.
  cbn [size]. now rewrite block_cells_one.
Qed.

Lemma setitem_full_mismatch (a : ndarray A) (c : coords) (v : ndarray A) n :
  c <> [] -> rect n c -> length c = ndim a ->
  broadcast_to v [n] = None ->
  setitem a c v = Raise ValueError.
Proof.
  intros Hne Hr Hlen Hv. unfold setitem.
  rewrite Hlen, Nat.ltb_irrefl.
  rewrite (index_lead_rect Hne Hr).
  unfold ndim. now rewrite skipn_all, app_nil_r, Hv.
Qed.
End SetItem.

(** ** The coordinates of a mask *)

Lemma where_coords_empty s : where_coords s [] = repeat [] (length s).
Proof.
  unfold where_coords. simpl.
  now rewrite map_const, length_seq.
Qed.

Lemma wf_true_positions (m : ndarray bool) k :
  wf m -> In k (find_true 0 (data m)) -> k < size (shape m).
Proof.
  intros Hwf Hk. apply find_true_bound in Hk.
  unfold wf in Hwf. lia.
Qed.

Lemma find_true_In0 l k :
  In k (find_true 0 l) <-> nth k l false = true.
Proof.
  rewrite find_true_In, Nat.sub_0_r. split; [tauto | split; [lia | auto]].
Qed.

(** what [np.where] returns on a mask with at least one axis *)
Lemma np_where_spec (m : ndarray bool) :
  wf m -> shape m <> [] ->
  let os := find_true 0 (data m) in
  let c := where_coords (shape m) os in
  np_where m = Ok c
  /\ length c = ndim m
  /\ rect (count_true (data m)) c
  /\ offsets (shape m) (positions c (count_true (data m))) = Some os.
Proof.
  intros Hwf Hne os c. subst os c.
  rewrite <- (find_true_length 0 (data m)).
  repeat split.
  - now apply np_where_ok.
  - apply where_coords_length.
  - apply where_coords_rect.
  - apply where_coords_offsets. intros k Hk. now apply wf_true_positions.
Qed.

(** the gray-matter mask has the shape of the segmentation *)
Lemma mask_bool_shape (aseg : ndarray spec_float) :
  shape (mask_bool aseg) = shape aseg /\ (wf aseg -> wf (mask_bool aseg)).
Proof.
  split; [reflexivity|].
  unfold wf, mask_bool. cbn [shape data]. now rewrite length_map.
Qed.

(** the region-of-interest map marks exactly the vertices with the label *)
Example roi_map_marks_label :
  (v <- roi_vertices [1; 2; 3; 2; 2]%Z 2%Z ;; roi_map 5 v)
  = Ok (mk_ndarray [5] [0; 1; 0; 1; 1]%Z).
Proof. vm_compute. reflexivity. Qed.

(** ** Worked examples *)

(** C8.  On the 4x4 grid holding 0..15, with the mask true exactly at (1,1)
    and (2,2): the coordinates are (1,1) then (2,2), the gathered values are
    [5, 10] in that order, and scattering [5, 10] into a 4x4 grid of zeros
    gives 5 at (1,1), 10 at (2,2) and zero everywhere else. *)
Theorem example_4x4_gather_scatter :
  item mask4x4 [1; 1]%Z = Some true
  /\ item mask4x4 [2; 2]%Z = Some true
  /\ count_true (data mask4x4) = 2
  /\ mask_coords mask4x4 = Ok [[1; 2]; [1; 2]]%Z
  /\ bold_masked grid4x4 [[1; 2]; [1; 2]]%Z = Ok (mk_ndarray [2] [5; 10]%Z)
  /\ beta_map_dense [4; 4] [[1; 2]; [1; 2]]%Z (mk_ndarray [2] [5; 10]%Z)
     = Ok (mk_ndarray [4; 4]
             [0; 0; 0; 0;
              0; 5; 0; 0;
              0; 0; 10; 0;
              0; 0; 0; 0]%Z).
Proof. repeat split; vm_compute; reflexivity. Qed.

(** ** Claims about the coordinates *)

(** Counterexample to C2: the 4x4 mask without a true entry does not make
    [np.where] fail; the result is a pair of empty index arrays. *)
Lemma empty_mask_is_accepted :
  count_true (data mask4x4_empty) = 0
  /\ mask_coords mask4x4_empty = Ok [[]; []]
  /\ ~ raises (mask_coords mask4x4_empty).
Proof.
  repeat split; try (vm_compute; reflexivity).
  intros [e He]. vm_compute in He. discriminate.
Qed.

(** C2, amended.  On a mask (with at least one axis) that has no true entry,
    the coordinates are computed without any failure: the result is one
    empty index array per axis.  No grid takes part in the computation. *)
Theorem mask_coords_empty_mask (m : ndarray bool) :
  shape m <> [] ->
  count_true (data m) = 0 ->
  mask_coords m = Ok (repeat [] (ndim m)).
Proof.
  intros Hne Hc. unfold mask_coords.
  rewrite np_where_ok by assumption.
  now rewrite (find_true_none 0 _ Hc), where_coords_empty.
Qed.

Lemma mask_coords_empty_mask_witness :
  shape mask4x4_empty <> []
  /\ count_true (data mask4x4_empty) = 0
  /\ mask_coords mask4x4_empty = Ok (repeat [] (ndim mask4x4_empty)).
Proof.
  split; [discriminate|]. split; [reflexivity|].
  apply (@mask_coords_empty_mask mask4x4_empty); [discriminate | reflexivity].
Defined.

(** C5.  The coordinates depend only on the mask: any mask with the same
    shape and the same entries yields the same index arrays.  There is one
    array per axis, each as long as the number of true entries, and the
    positions are exactly the true entries, listed in increasing row-major
    order. *)
Theorem mask_coords_deterministic_count (m : ndarray bool) :
  wf m -> shape m <> [] ->
  exists c,
    mask_coords m = Ok c
    /\ (forall m', shape m' = shape m -> data m' = data m ->
                   mask_coords m' = Ok c)
    /\ length c = ndim m
    /\ rect (count_true (data m)) c
    /\ exists os,
         offsets (shape m) (positions c (count_true (data m))) = Some os
         /\ length os = count_true (data m)
         /\ StronglySorted lt os
         /\ forall k, In k os <-> nth k (data m) false = true.
Proof.
  intros Hwf Hne.
  destruct (np_where_spec Hwf Hne) as (Hw & Hlen & Hr & Hos).
  exists (where_coords (shape m) (find_true 0 (data m))).
  unfold mask_coords. repeat split; auto.
  - intros m' Hs Hd.
    rewrite np_where_ok by congruence. now rewrite Hs, Hd.
  - exists (find_true 0 (data m)). repeat split; auto.
    + apply find_true_length.
    + apply find_true_sorted.
    + now apply find_true_In0.
    + now apply find_true_In0.
Qed.

Lemma mask_coords_deterministic_count_witness :
  exists c,
    mask_coords mask4x4 = Ok c
    /\ (forall m', shape m' = shape mask4x4 -> data m' = data mask4x4 ->
                   mask_coords m' = Ok c)
    /\ length c = ndim mask4x4
    /\ rect (count_true (data mask4x4)) c
    /\ exists os,
         offsets (shape mask4x4) (positions c (count_true (data mask4x4))) = Some os
         /\ length os = count_true (data mask4x4)
         /\ StronglySorted lt os
         /\ forall k, In k os <-> nth k (data mask4x4) false = true.
Proof.
  apply (@mask_coords_deterministic_count mask4x4); [reflexivity | discriminate].
Defined.

(** the vertices of a region of interest: as many as there are vertices
    carrying the label *)
Lemma roi_vertices_count (parcellation : list Z) (label : Z) :
  exists v,
    roi_vertices parcellation label = Ok v
    /\ length v = count_true (map (fun l => Z.eqb l label) parcellation).
Proof.
  unfold roi_vertices.
  rewrite np_where_ok by (simpl; discriminate).
  cbn [bind shape data where_coords length seq map].
  eexists. split; [reflexivity|].
  now rewrite length_map, find_true_length.
Qed.


(** ** Claims about gathering *)

Lemma unravel_bound s k :
  k < size s -> Forall2 (fun d i => i < d) s (unravel s k).
Proof.
  revert k; induction s as [|d s IH]; intros k Hk; simpl in *.
  - constructor.
  - assert (size s <> 0) as Hnz by (intros E; rewrite E in Hk; lia).
    constructor.
    + apply Nat.Div0.div_lt_upper_bound. lia.
    + apply IH. now apply Nat.mod_upper_bound.
Qed.

Lemma ravel_nat_ok sg idx :
  Forall2 (fun d i => i < d) sg idx ->
  ravel sg (map Z.of_nat idx) = Some (ravel_nat sg idx).
Proof.
  induction 1 as [|d i sg idx Hi Hrest IH]; simpl; [reflexivity|].
  now rewrite norm_index_nat, IH.
Qed.

Lemma index_below_larger s sg idx :
  Forall2 (fun d i => i < d) s idx -> Forall2 le s sg ->
  Forall2 (fun d i => i < d) sg idx.
Proof.
  intros Hb; revert sg; induction Hb as [|d i s idx Hi Hrest IH];
    intros sg Hle; inversion Hle; subst; constructor; auto; lia.
Qed.

(** the coordinates of a mask are within the bounds of every grid whose
    leading axes are at least as long as the mask's *)
Lemma where_coords_offsets_larger s sg os :
  (forall k, In k os -> k < size s) ->
  Forall2 le s sg ->
  offsets sg (positions (where_coords s os) (length os))
  = Some (map (fun k => ravel_nat sg (unravel s k)) os).
Proof.
  intros Hos Hle. unfold positions.
  rewrite (offsets_map sg (position (where_coords s os))
             (fun i => ravel_nat sg (unravel s (nth i os 0)))).
  - now rewrite (map_nth_of_seq (fun k => ravel_nat sg (unravel s k))).
  - intros i Hi. apply in_seq in Hi.
    rewrite where_coords_position by lia.
    apply ravel_nat_ok.
    apply index_below_larger with (s := s); auto.
    apply unravel_bound, Hos, nth_In. lia.
Qed.

Section Gather.
Context {A : Type} `{Dtype A}.

Lemma bold_masked_ok (g : ndarray A) (c : coords) sp tl n os :
  c <> [] -> rect n c -> length c = length sp ->
  shape g = sp ++ tl ->
  offsets sp (positions c n) = Some os ->
  bold_masked g c
  = Ok (transpose
          (mk_ndarray (n :: tl)
             (flat_map (fun o => block (data g) o (size tl))
                       (map (fun o => o * size tl) os)))).
Proof.
  intros Hne Hr Hlen Hs Hos. unfold bold_masked.
  now rewrite (@getitem_ok _ g c sp tl n os Hne Hr Hlen Hs Hos).
Qed.

(** Counterexample to C3: the coordinates of a 4x4 mask are valid indices
    into a 4x5 grid, so the mismatch goes unnoticed and values are read from
    the wrong cells (6 and 12 instead of a failure). *)
Lemma mask4x4_on_grid4x5_is_accepted :
  shape mask4x4 = [4; 4]
  /\ shape grid4x5 = [4; 5]
  /\ (c <- mask_coords mask4x4 ;; bold_masked grid4x5 c)
     = Ok (mk_ndarray [2] [6; 12]%Z)
  /\ ~ raises (c <- mask_coords mask4x4 ;; bold_masked grid4x5 c).
Proof.
  assert ((c <- mask_coords mask4x4 ;; bold_masked grid4x5 c)
          = Ok (mk_ndarray [2] [6; 12]%Z)) as E by (vm_compute; reflexivity).
  repeat split; try reflexivity; try exact E.
  exact (ok_not_raises E).
Qed.

(** C3, amended.  Gathering fails, with NumPy's [IndexError], whenever some
    index of the coordinate set lies outside the range [-d, d) that its axis
    of length d accepts.  A mask whose shape differs from the grid's is not
    detected as such: as long as every indexed axis of the grid is at least
    as long as the mask's (a 4x4 mask on a 4x5 grid), the coordinates are
    in bounds and gathering returns values. *)
Theorem gather_index_bounds :
  (forall (g : ndarray A) (c : coords) n j i,
      rect n c -> j < length c -> i < n ->
      ~ index_ok (nth j (shape g) 0) (nth i (nth j c []) 0%Z) ->
      bold_masked g c = Raise IndexError)
  /\ (forall (g : ndarray A) (m : ndarray bool) sg tl,
         wf m -> shape m <> [] ->
         shape g = sg ++ tl -> Forall2 le (shape m) sg ->
         exists c G,
           mask_coords m = Ok c
           /\ bold_masked g c = Ok G
           /\ shape G = rev tl ++ [count_true (data m)]).
Proof.
  split.
  - intros g c n j i Hr Hj Hi Hbad. unfold bold_masked.
    now rewrite (@getitem_oob _ g c n j i Hr Hj Hi Hbad).
  - intros g m sg tl Hwf Hne Hs Hle.
    destruct (np_where_spec Hwf Hne) as (Hw & Hlen & Hr & _).
    set (os := find_true 0 (data m)) in *.
    set (c := where_coords (shape m) os) in *.
    assert (count_true (data m) = length os) as Hn
      by (symmetry; apply find_true_length).
    assert (offsets sg (positions c (count_true (data m)))
            = Some (map (fun k => ravel_nat sg (unravel (shape m) k)) os))
      as Hos.
    { rewrite Hn. apply where_coords_offsets_larger; auto.
      intros k Hk. now apply wf_true_positions. }
    assert (c <> []) as Hc.
    { intros E. rewrite E in Hlen. unfold ndim in Hlen.
      destruct (shape m); simpl in Hlen; congruence. }
    assert (length c = length sg) as Hlen'.
    { rewrite Hlen. unfold ndim. now apply Forall2_length in Hle. }
    exists c. eexists. split; [exact Hw|]. split.
    + exact (@bold_masked_ok g c sg tl _ _ Hc Hr Hlen' Hs Hos).
    + rewrite transpose_shape. reflexivity.
Qed.

(** C6.  For a grid of shape (...spatial..., T) and a coordinate set within
    the spatial bounds, the gathered array has shape (T, len(c)); without a
    time axis it has shape (len(c),).  In both cases its buffer has exactly
    that many elements. *)
Theorem gather_shape (g : ndarray A) (c : coords) sp n (time : option nat) :
  sp <> [] -> rect n c -> in_bounds sp c ->
  shape g = sp ++ match time with Some T => [T] | None => [] end ->
  exists G,
    bold_masked g c = Ok G
    /\ shape G = match time with Some T => [T; n] | None => [n] end
    /\ wf G.
Proof.
  intros Hne Hr Hb Hs.
  assert (length c = length sp) as Hlen
    by (symmetry; now apply Forall2_length in Hb).
  assert (c <> []) as Hc.
  { intros E. rewrite E in Hlen. destruct sp; simpl in Hlen; congruence. }
  destruct (offsets_in_bounds Hb Hr) as (os & Hos & Hn).
  eexists. split; [apply (@bold_masked_ok g c sp _ n os Hc Hr Hlen Hs Hos)|].
  split.
  - rewrite transpose_shape. cbn [shape]. now destruct time.
  - unfold wf. rewrite transpose_data_length, transpose_shape. cbn [shape].
    destruct time; cbn [rev app size]; lia.
Qed.
End Gather.

Lemma gather_index_bounds_witness :
  bold_masked grid4x4 [[1; 4]; [1; 2]]%Z = Raise IndexError
  /\ exists c G,
       mask_coords mask4x4 = Ok c
       /\ bold_masked grid4x5 c = Ok G
       /\ shape G = rev [] ++ [count_true (data mask4x4)].
Proof.
  split.
  - apply (proj1 (@gather_index_bounds Z _) grid4x4 [[1; 4]; [1; 2]]%Z 2 0 1).
    + repeat constructor.
    + simpl; lia.
    + lia.
    + unfold index_ok; simpl; lia.
  - apply (proj2 (@gather_index_bounds Z _) grid4x5 mask4x4 [4; 5] []).
    + reflexivity.
    + discriminate.
    + reflexivity.
    + repeat constructor.
Defined.

Lemma gather_shape_witness :
  exists G,
    bold_masked (mk_ndarray [4; 4; 3] (map Z.of_nat (seq 0 48)))
                [[1; 2]; [1; 2]]%Z = Ok G
    /\ shape G = [3; 2]
    /\ wf G.
Proof.
  apply (@gather_shape Z _ (mk_ndarray [4; 4; 3] (map Z.of_nat (seq 0 48)))
           [[1; 2]; [1; 2]]%Z [4; 4] 2 (Some 3)).
  - discriminate.
  - repeat constructor.
  - repeat constructor; unfold index_ok; simpl; lia.
  - reflexivity.
Defined.

(** ** Claims about scattering and the round trip *)

Lemma item_inv {A : Type} (a : ndarray A) p x :
  item a p = Some x ->
  length p = ndim a
  /\ exists k, ravel (shape a) p = Some k /\ nth_error (data a) k = Some x.
Proof.
  unfold item. destruct (Nat.eqb_spec (length p) (ndim a)); [|discriminate].
  destruct (ravel (shape a) p) as [k|]; [|discriminate].
  eauto.
Qed.

Lemma item_at {A : Type} (a : ndarray A) p k :
  length p = ndim a -> ravel (shape a) p = Some k ->
  item a p = nth_error (data a) k.
Proof.
  intros Hlen Hr. unfold item. now rewrite Hlen, Nat.eqb_refl, Hr.
Qed.

Section RoundTrip.
Context {A : Type} `{Dtype A}.

(** the cells read by a gather: block [i] of the result is the block of the
    grid at the [i]-th offset *)
Lemma gathered_nth (gdata : list A) (os : list nat) B N :
  length gdata = N * B ->
  (forall k, In k os -> k < N) ->
  length (flat_map (fun o => block gdata o B) (map (fun o => o * B) os))
  = length os * B
  /\ forall i t, i < length os -> t < B ->
       nth (i * B + t)
           (flat_map (fun o => block gdata o B) (map (fun o => o * B) os)) zero
       = nth (nth i os 0 * B + t) gdata zero.
Proof.
  intros Hlen Hos.
  assert (forall x, In x (map (fun o => o * B) os) ->
                    length (block gdata x B) = B) as Hblk.
  { intros x Hx. apply in_map_iff in Hx as (k & <- & Hk).
    apply block_length. specialize (Hos k Hk). nia. }
  split.
  - rewrite (@flat_map_blocks_length A nat (fun o => block gdata o B)
               (map (fun o => o * B) os) B Hblk).
    now rewrite length_map.
  - intros i t Hi Ht.
    rewrite (@nth_flat_map_blocks A nat (fun o => block gdata o B)
               (map (fun o => o * B) os) B i t (0 * B) zero Hblk)
      by (rewrite ?length_map; assumption).
    rewrite (map_nth (fun o => o * B) os 0 i).
    now apply nth_block.
Qed.

(** scattering, into a grid of zeros, values that are a function [f] of the
    cell they go to *)
Lemma zeros_scatter (m : ndarray bool) (v : ndarray A) (f : nat -> A) :
  wf m -> shape m <> [] ->
  shape v = [count_true (data m)] ->
  data v = map f (find_true 0 (data m)) ->
  exists out,
    beta_map_dense (shape m)
      (where_coords (shape m) (find_true 0 (data m))) v = Ok out
    /\ shape out = shape m
    /\ forall p k, length p = ndim m -> ravel (shape m) p = Some k ->
         item out p = Some (if nth k (data m) false then f k else zero).
Proof.
  intros Hwf Hne Hsv Hdv.
  destruct (np_where_spec Hwf Hne) as (_ & Hlen & Hr & Hos).
  set (os := find_true 0 (data m)) in *.
  set (c := where_coords (shape m) os) in *.
  assert (c <> []) as Hc.
  { intros E. rewrite E in Hlen. unfold ndim in Hlen.
    destruct (shape m); simpl in Hlen; congruence. }
  assert (length (data v) = count_true (data m)) as Hlv.
  { rewrite Hdv, length_map. apply find_true_length. }
  eexists. split; [|split].
  - unfold beta_map_dense.
    apply (@setitem_full A (np_zeros (shape m)) c v (count_true (data m))
             (data v) os Hc Hr Hlen
             (@broadcast_to_1d A v _ Hsv Hlv) Hos).
  - reflexivity.
  - intros p k Hp Hk.
    assert (k < size (shape m)) as Hkb by (eapply ravel_bound; eauto).
    rewrite (@item_at A _ p k) by assumption.
    cbn [data np_zeros shape].
    rewrite nth_error_nth' with (d := zero)
      by now rewrite write_all_length, repeat_length.
    f_equal. rewrite Hdv, write_all_map by now rewrite repeat_length.
    destruct (in_dec Nat.eq_dec k os) as [Hin|Hin];
      subst os; rewrite find_true_In0 in Hin.
    + now rewrite Hin.
    + destruct (nth k (data m) false); [congruence|].
      apply nth_repeat.
Qed.

(** row [t] of the gathered matrix lists, coordinate by coordinate, the
    grid's values at time [t] *)
Lemma gathered_row (g : ndarray A) (os : list nat) N T t :
  length (data g) = N * T ->
  (forall k, In k os -> k < N) ->
  t < T ->
  getrow (transpose
            (mk_ndarray [length os; T]
               (flat_map (fun o => block (data g) o (size [T]))
                         (map (fun o => o * size [T]) os))))
         (Z.of_nat t)
  = Ok (mk_ndarray [length os]
          (map (fun k => nth (k * T + t) (data g) zero) os)).
Proof.
  intros Hlen Hos Ht. rewrite size_one.
  destruct (@gathered_nth (data g) os T N Hlen Hos) as (HlenD & HnthD).
  set (G0 := mk_ndarray [length os; T] _).
  rewrite (@getrow_ok A (transpose G0) T [length os] t)
    by (auto; rewrite transpose_shape; reflexivity).
  f_equal. f_equal. rewrite size_one.
  apply nth_ext with (d := zero) (d' := zero).
  - rewrite length_map, block_length; [reflexivity|].
    rewrite transpose_data_length. cbn [shape G0 size]. nia.
  - intros i Hi.
    rewrite block_length in Hi
      by (rewrite transpose_data_length; cbn [shape G0 size]; nia).
    rewrite nth_block by assumption.
    rewrite (@transpose_2d_nth A _ G0 (length os) T i t) by auto.
    cbn [data G0]. rewrite HnthD by assumption.
    now rewrite (@nth_map_in nat A (fun k => nth (k * T + t) (data g) zero)
                   os i 0 zero Hi).
Qed.

(** Counterexample to C1: on a surface grid with a time axis (two vertices,
    two time points) the scatter assigns the gathered (time, vertex) matrix
    to the (vertex, time) cells, so the result is the transposed data: at
    vertex 0, time 1 it holds 3 where the grid holds 2. *)
Lemma roundtrip_with_time_is_transposed :
  shape surface2x2 = shape mask2 ++ [2]
  /\ item mask2 [0%Z] = Some true
  /\ item surface2x2 [0; 1]%Z = Some 2%Z
  /\ exists out,
       (c <- mask_coords mask2 ;;
        G <- bold_masked surface2x2 c ;;
        beta_map_dense (shape surface2x2) c G) = Ok out
       /\ item out [0; 1]%Z = Some 3%Z.
Proof.
  repeat split; try (vm_compute; reflexivity).
  eexists. split; vm_compute; reflexivity.
Qed.

(** with two vertices and three time points the gathered (3, 2) matrix does
    not even fit the (2, 3) cells it is assigned to *)
Example roundtrip_with_time_shape_error :
  (c <- mask_coords mask2 ;;
   G <- bold_masked (mk_ndarray [2; 3] [1; 2; 3; 4; 5; 6]%Z) c ;;
   beta_map_dense [2; 3] c G) = Raise ValueError.
Proof. vm_compute. reflexivity. Qed.

(** C1, amended.  For a mask [m] and a grid [g] without a time axis whose
    shape is the mask's, gathering at the mask's coordinates and scattering
    the result into a grid of zeros of the same shape gives [g] wherever
    [m] is true and zero wherever it is false, whatever the number of
    spatial axes.  For a grid with a time axis the same holds one time point
    at a time: scattering row [t] of the gathered (T, n) matrix into the
    spatial shape gives the grid's values at time [t] on the mask and zero
    off the mask. *)
Theorem gather_scatter_roundtrip (m : ndarray bool) (g : ndarray A) :
  wf m -> wf g -> shape m <> [] ->
  exists c,
    mask_coords m = Ok c
    /\ (shape g = shape m ->
        exists G out,
          bold_masked g c = Ok G
          /\ beta_map_dense (shape m) c G = Ok out
          /\ shape out = shape m
          /\ forall p b, item m p = Some b ->
               item out p = if b then item g p else Some zero)
    /\ (forall T, shape g = shape m ++ [T] ->
        exists G,
          bold_masked g c = Ok G
          /\ shape G = [T; count_true (data m)]
          /\ forall t, t < T ->
               exists v out,
                 getrow G (Z.of_nat t) = Ok v
                 /\ beta_map_dense (shape m) c v = Ok out
                 /\ shape out = shape m
                 /\ forall p b, item m p = Some b ->
                      item out p
                      = if b then item g (p ++ [Z.of_nat t]) else Some zero).
Proof.
  intros Hwf Hwg Hne.
  destruct (np_where_spec Hwf Hne) as (Hw & Hlen & Hr & Hos).
  set (os := find_true 0 (data m)) in *.
  set (c := where_coords (shape m) os) in *.
  assert (c <> []) as Hc.
  { intros E. rewrite E in Hlen. unfold ndim in Hlen.
    destruct (shape m); simpl in Hlen; congruence. }
  assert (count_true (data m) = length os) as Hn
    by (symmetry; apply find_true_length).
  assert (forall k, In k os -> k < size (shape m)) as Hbound
    by (intros k Hk; now apply wf_true_positions).
  exists c. split; [exact Hw|]. split.
  - (* no time axis *)
    intros Hs.
    assert (shape g = shape m ++ []) as Hs' by now rewrite app_nil_r.
    assert (length (data g) = size (shape m) * 1) as Hlg
      by (unfold wf in Hwg; rewrite Hwg, Hs; lia).
    destruct (@gathered_nth (data g) os 1 (size (shape m)) Hlg Hbound)
      as (HlenD & HnthD).
    set (D := flat_map (fun o => block (data g) o 1) (map (fun o => o * 1) os))
      in *.
    assert (D = map (fun k => nth k (data g) zero) os) as HD.
    { apply nth_ext with (d := zero) (d' := zero).
      - now rewrite HlenD, length_map, Nat.mul_1_r.
      - intros i Hi. rewrite HlenD, Nat.mul_1_r in Hi.
        rewrite (@nth_map_in nat A (fun k => nth k (data g) zero) os i 0 zero Hi).
        specialize (HnthD i 0 Hi ltac:(lia)).
        now rewrite !Nat.mul_1_r, !Nat.add_0_r in HnthD. }
    destruct (@zeros_scatter m (mk_ndarray [count_true (data m)] D)
                (fun k => nth k (data g) zero) Hwf Hne eq_refl HD)
      as (out & Hout & Hso & Hitem).
    exists (mk_ndarray [count_true (data m)] D), out. repeat split; auto.
    + rewrite (@bold_masked_ok A _ g c (shape m) [] _ os Hc Hr Hlen Hs' Hos).
      f_equal. apply transpose_1d with (n := count_true (data m)); [reflexivity|].
      cbn [data size]. fold D. rewrite HlenD. lia.
    + intros p b Hp.
      destruct (@item_inv bool m p b Hp) as (Hlp & k & Hk & Hb).
      rewrite (Hitem p k Hlp Hk).
      rewrite (nth_error_nth (data m) k false Hb).
      destruct b; [|reflexivity].
      rewrite (@item_at A g p k) by (unfold ndim in *; congruence).
      symmetry. apply nth_error_nth'.
      unfold wf in Hwg. rewrite Hwg, Hs. eapply ravel_bound; eauto.
  - (* one trailing time axis *)
    intros T Hs.
    assert (length (data g) = size (shape m) * T) as Hlg
      by (unfold wf in Hwg; rewrite Hwg, Hs, size_app, size_one; lia).
    eexists. split; [|split].
    + apply (@bold_masked_ok A _ g c (shape m) [T] _ os Hc Hr Hlen Hs Hos).
    + rewrite transpose_shape. reflexivity.
    + intros t Ht. rewrite Hn.
      rewrite (@gathered_row g os (size (shape m)) T t Hlg Hbound Ht).
      destruct (@zeros_scatter m
                  (mk_ndarray [length os]
                     (map (fun k => nth (k * T + t) (data g) zero) os))
                  (fun k => nth (k * T + t) (data g) zero) Hwf Hne)
        as (out & Hout & Hso & Hitem);
        [cbn [shape]; congruence | reflexivity |].
      eexists. exists out. repeat split; auto.
      intros p b Hp.
      destruct (@item_inv bool m p b Hp) as (Hlp & k & Hk & Hb).
      rewrite (Hitem p k Hlp Hk).
      rewrite (nth_error_nth (data m) k false Hb).
      destruct b; [|reflexivity].
      assert (k < size (shape m)) as Hkb by (eapply ravel_bound; eauto).
      rewrite (@item_at A g (p ++ [Z.of_nat t]) (k * size [T] + (t * size [] + 0))).
      * symmetry. rewrite size_one. cbn [size].
        replace (k * T + (t * 1 + 0)) with (k * T + t) by lia.
        apply nth_error_nth'. rewrite Hlg. nia.
      * unfold ndim in *. rewrite Hs, !length_app. simpl. lia.
      * rewrite Hs. apply ravel_app_full; auto.
        cbn [ravel]. now rewrite norm_index_nat.
Qed.
End RoundTrip.


Lemma gather_scatter_roundtrip_witness :
  (exists c G out,
      mask_coords mask4x4 = Ok c
      /\ bold_masked grid4x4 c = Ok G
      /\ beta_map_dense (shape mask4x4) c G = Ok out
      /\ shape out = shape mask4x4
      /\ forall p b, item mask4x4 p = Some b ->
           item out p = if b then item grid4x4 p else Some zero)
  /\ (exists c G v out,
         mask_coords mask2 = Ok c
         /\ bold_masked surface2x2 c = Ok G
         /\ shape G = [2; count_true (data mask2)]
         /\ getrow G 1%Z = Ok v
         /\ beta_map_dense (shape mask2) c v = Ok out
         /\ shape out = shape mask2
         /\ forall p b, item mask2 p = Some b ->
              item out p = if b then item surface2x2 (p ++ [1%Z]) else Some zero).
Proof.
  split.
  - destruct (@gather_scatter_roundtrip Z _ mask4x4 grid4x4)
      as (c & Hc & Hspace & _);
      [reflexivity | reflexivity | discriminate |].
    destruct (Hspace eq_refl) as (G & out & HG & Hout & Hs & Hitem).
    exists c, G, out. repeat split; assumption.
  - destruct (@gather_scatter_roundtrip Z _ mask2 surface2x2)
      as (c & Hc & _ & Htime);
      [reflexivity | reflexivity | discriminate |].
    destruct (Htime 2 eq_refl) as (G & HG & HsG & Hrows).
    destruct (Hrows 1 ltac:(lia)) as (v & out & Hv & Hout & Hs & Hitem).
    exists c, G, v, out. repeat split; assumption.
Defined.

Section Scatter.
Context {A : Type} `{Dtype A}.

(** C4, amended.  Scattering a one-dimensional value sequence through
    coordinates that index every axis of the target shape fails, with NumPy's
    [ValueError], whenever the number of values differs from the number of
    coordinates, except when there is exactly one value: a single value is
    broadcast to all coordinates. *)
Theorem scatter_length_mismatch (s : list nat) (c : coords) (v : ndarray A) n len :
  c <> [] -> rect n c -> length c = length s ->
  shape v = [len] -> len <> n -> len <> 1 ->
  beta_map_dense s c v = Raise ValueError.
Proof.
  intros Hc Hr Hlen Hs Hn H1. unfold beta_map_dense.
  apply (@setitem_full_mismatch A (np_zeros s) c v n Hc Hr Hlen).
  exact (@broadcast_to_1d_fail A v len n Hs Hn H1).
Qed.
End Scatter.

(** Counterexample to C4: one value scattered to two coordinates is accepted
    and written at both. *)
Lemma scatter_single_value_is_broadcast :
  length (data (mk_ndarray [1] [7%Z])) = 1
  /\ rect 2 [[1; 2]; [1; 2]]%Z
  /\ beta_map_dense [4; 4] [[1; 2]; [1; 2]]%Z (mk_ndarray [1] [7%Z])
     = Ok (mk_ndarray [4; 4]
             [0; 0; 0; 0;
              0; 7; 0; 0;
              0; 0; 7; 0;
              0; 0; 0; 0]%Z)
  /\ ~ raises (beta_map_dense [4; 4] [[1; 2]; [1; 2]]%Z
                 (mk_ndarray [1] [7%Z])).
Proof.
  split; [reflexivity|]. split; [repeat constructor|].
  split; [vm_compute; reflexivity|].
  apply ok_not_raises with
    (a := mk_ndarray [4; 4] [0; 0; 0; 0; 0; 7; 0; 0; 0; 0; 7; 0; 0; 0; 0; 0]%Z).
  vm_compute. reflexivity.
Qed.

Lemma scatter_length_mismatch_witness :
  beta_map_dense [4; 4] [[1; 2]; [1; 2]]%Z (mk_ndarray [3] [5; 6; 7]%Z)
  = Raise ValueError.
Proof.
  apply (@scatter_length_mismatch Z _ [4; 4] [[1; 2]; [1; 2]]%Z
           (mk_ndarray [3] [5; 6; 7]%Z) 2 3).
  - discriminate.
  - repeat constructor.
  - reflexivity.
  - reflexivity.
  - lia.
  - lia.
Defined.

(** ** The beta map *)

Lemma nan_where_zero_no_zero (x : spec_float) :
  SFeqb (if SFeqb x zero then S754_nan else x) zero = false.
Proof.
  destruct (SFeqb x zero) eqn:E; [reflexivity | exact E].
Qed.

Lemma item_nan_where_zero (a : ndarray spec_float) p k :
  length p = ndim a -> ravel (shape a) p = Some k -> k < length (data a) ->
  item (nan_where_zero a) p
  = Some (if SFeqb (nth k (data a) zero) zero then S754_nan
          else nth k (data a) zero).
Proof.
  intros Hp Hk Hlt.
  rewrite (@item_at spec_float (nan_where_zero a) p k Hp Hk).
  cbn [data nan_where_zero].
  rewrite nth_error_map, (nth_error_nth' (data a) zero Hlt).
  reflexivity.
Qed.

(** C10.  In the beta map, every cell outside the mask is NaN, and the cell
    of the [i]-th mask coordinate holds the [i]-th coefficient of the first
    row of [b] unless that coefficient compares equal to zero, in which case
    it is NaN as well: an in-mask coefficient that is exactly zero cannot be
    told apart from the background.  No cell of the map compares equal to
    zero. *)
Theorem beta_map_zero_is_nan (m : ndarray bool) (b : ndarray spec_float) r :
  wf m -> wf b -> shape m <> [] ->
  shape b = [S r; count_true (data m)] ->
  exists c out,
    mask_coords m = Ok c
    /\ beta_map (shape m) c b = Ok out
    /\ shape out = shape m
    /\ (forall p, item m p = Some false -> item out p = Some S754_nan)
    /\ (forall i, i < count_true (data m) ->
          item m (position c i) = Some true
          /\ item out (position c i)
             = Some (if SFeqb (nth i (data b) zero) zero then S754_nan
                     else nth i (data b) zero))
    /\ (forall p x, item out p = Some x -> SFeqb x zero = false).
Proof.
  intros Hwf Hwb Hne Hsb.
  destruct (np_where_spec Hwf Hne) as (Hw & Hlen & Hr & Hos).
  set (os := find_true 0 (data m)) in *.
  set (c := where_coords (shape m) os) in *.
  set (n := count_true (data m)) in *.
  assert (n = length os) as Hn by (symmetry; apply find_true_length).
  assert (c <> []) as Hc.
  { intros E. rewrite E in Hlen. unfold ndim in Hlen.
    destruct (shape m); simpl in Hlen; congruence. }
  assert (length (data b) = S r * n) as Hlb
    by (unfold wf in Hwb; rewrite Hwb, Hsb; cbn [size]; lia).
  set (b0 := mk_ndarray [n] (block (data b) (0 * size [n]) (size [n]))).
  assert (getrow b 0%Z = Ok b0) as Hrow
    by exact (@getrow_ok spec_float b (S r) [n] 0 Hsb ltac:(lia)).
  assert (length (data b0) = n) as Hlb0.
  { cbn [data b0]. rewrite size_one. apply block_length. lia. }
  set (W := write_all (repeat zero (size (shape m))) os (data b0)).
  assert (beta_map_dense (shape m) c b0 = Ok (mk_ndarray (shape m) W)) as Hdense.
  { unfold beta_map_dense.
    exact (@setitem_full spec_float (np_zeros (shape m)) c b0 n (data b0) os
             Hc Hr Hlen (@broadcast_to_1d spec_float b0 n eq_refl Hlb0) Hos). }
  assert (length W = size (shape m)) as HlW
    by (unfold W; now rewrite write_all_length, repeat_length).
  exists c, (nan_where_zero (mk_ndarray (shape m) W)).
  split; [exact Hw|]. split; [|split; [reflexivity|]].
  { unfold beta_map. rewrite Hrow. cbn [bind]. rewrite Hdense. reflexivity. }
  split; [|split].
  - (* outside the mask *)
    intros p Hp.
    destruct (@item_inv bool m p false Hp) as (Hlp & k & Hk & Hb).
    assert (k < size (shape m)) as Hkb by (eapply ravel_bound; eauto).
    rewrite (@item_nan_where_zero (mk_ndarray (shape m) W) p k Hlp Hk)
      by (cbn [data]; lia).
    cbn [data]. unfold W.
    rewrite write_all_notin.
    + now rewrite nth_repeat.
    + unfold os. rewrite find_true_In0.
      rewrite (nth_error_nth (data m) k false Hb). discriminate.
  - (* at the coordinates of the mask *)
    intros i Hi.
    assert (In (nth i os 0) os) as Hin by (apply nth_In; lia).
    assert (nth i os 0 < size (shape m)) as Hkb
      by now apply wf_true_positions.
    assert (length (position c i) = ndim m) as Hlp
      by now rewrite position_length.
    assert (ravel (shape m) (position c i) = Some (nth i os 0)) as Hk.
    { unfold c. rewrite where_coords_position by lia.
      now apply ravel_unravel. }
    split.
    + rewrite (@item_at bool m (position c i) (nth i os 0) Hlp Hk).
      rewrite nth_error_nth' with (d := false)
        by (unfold wf in Hwf; lia).
      f_equal. now apply find_true_In0.
    + rewrite (@item_nan_where_zero (mk_ndarray (shape m) W)
                 (position c i) (nth i os 0) Hlp Hk)
        by (cbn [data]; lia).
      cbn [data]. unfold W.
      rewrite write_all_nth; try lia.
      * cbn [data b0]. rewrite size_one.
        rewrite nth_block by lia. reflexivity.
      * apply find_true_NoDup.
      * now rewrite repeat_length.
  - (* nothing is left that equals zero *)
    intros p x Hp.
    destruct (@item_inv spec_float _ p x Hp) as (Hlp & k & Hk & Hx).
    cbn [data nan_where_zero] in Hx.
    rewrite nth_error_map in Hx.
    destruct (nth_error W k) as [y|]; [|discriminate].
    injection Hx as <-. apply nan_where_zero_no_zero.
Qed.

Lemma beta_map_zero_is_nan_witness :
  exists c out,
    mask_coords mask2 = Ok c
    /\ beta_map (shape mask2) c
         (mk_ndarray [1; 2] [S754_zero true; one]) = Ok out
    /\ shape out = shape mask2
    /\ (forall p, item mask2 p = Some false -> item out p = Some S754_nan)
    /\ (forall i, i < count_true (data mask2) ->
          item mask2 (position c i) = Some true
          /\ item out (position c i)
             = Some (if SFeqb (nth i [S754_zero true; one] zero) zero
                     then S754_nan
                     else nth i [S754_zero true; one] zero))
    /\ (forall p x, item out p = Some x -> SFeqb x zero = false).
Proof.
  apply (@beta_map_zero_is_nan mask2
           (mk_ndarray [1; 2] [S754_zero true; one]) 0).
  - reflexivity.
  - reflexivity.
  - discriminate.
  - reflexivity.
Defined.

(** ** Motion censors *)

Lemma fd_fill_length fd : length (fd_fill fd) = length fd.
Proof. unfold fd_fill. apply length_map. Qed.

Lemma bad_vols_In fd i :
  In i (bad_vols fd)
  <-> i < length fd /\ SFleb fd_threshold (nth i fd zero) = true.
Proof.
  unfold bad_vols. rewrite find_true_In0.
  destruct (Nat.lt_ge_cases i (length fd)) as [Hi|Hi].
  - rewrite (@nth_map_in _ _ (fun x => SFleb fd_threshold x) fd i zero false Hi).
    tauto.
  - rewrite nth_overflow by now rewrite length_map.
    split; [discriminate | lia].
Qed.

Lemma same_cell k i j i' j' :
  j < k -> j' < k -> i * k + j = i' * k + j' -> i = i' /\ j = j'.
Proof.
  intros Hj Hj' E.
  assert (j = (i * k + j) mod k) as Hm
    by (apply Nat.mod_unique with i; lia).
  assert (j' = (i * k + j) mod k) as Hm'
    by (apply Nat.mod_unique with i'; lia).
  assert (j = j') as <- by congruence.
  split; [nia | reflexivity].
Qed.

(** C9.  With NaN displacements replaced by zero, the censor matrix has one
    row per volume and one column per volume whose displacement is at least
    the threshold 0.25.  Column [j] holds 1 in the row of the [j]-th such
    volume and 0 in every other row.  A volume whose displacement was NaN is
    never among the censored ones. *)
Theorem censors_one_hot (fd : list spec_float) :
  exists cm,
    censors fd = Ok cm
    /\ shape cm = [length fd; length (bad_vols (fd_fill fd))]
    /\ wf cm
    /\ length (bad_vols (fd_fill fd))
       = count_true (map (fun x => SFleb fd_threshold x) (fd_fill fd))
    /\ (forall i, In i (bad_vols (fd_fill fd))
                  <-> i < length fd
                      /\ SFleb fd_threshold (nth i (fd_fill fd) zero) = true)
    /\ StronglySorted lt (bad_vols (fd_fill fd))
    /\ (forall i j, i < length fd -> j < length (bad_vols (fd_fill fd)) ->
          item cm [Z.of_nat i; Z.of_nat j]
          = Some (if i =? nth j (bad_vols (fd_fill fd)) 0
                  then one else zero))
    /\ one <> zero :> spec_float
    /\ (forall i, i < length fd -> nth i fd zero = S754_nan ->
          ~ In i (bad_vols (fd_fill fd))).
Proof.
  set (bad := bad_vols (fd_fill fd)).
  set (k := length bad).
  set (T := length (fd_fill fd)).
  set (c := [map Z.of_nat bad; map Z.of_nat (seq 0 k)]).
  set (cell := fun j => nth j bad 0 * (k * 1) + (j * 1 + 0)).
  assert (T = length fd) as HT by apply fd_fill_length.
  assert (forall j, j < k -> nth j bad 0 < T) as Hbad.
  { intros j Hj.
    assert (In (nth j bad 0) bad) as Hin by now apply nth_In.
    apply bad_vols_In in Hin. tauto. }
  assert (rect k c) as Hr.
  { unfold rect, c. repeat constructor.
    - apply length_map.
    - now rewrite length_map, length_seq. }
  assert (offsets [T; k] (positions c k) = Some (map cell (seq 0 k))) as Hos.
  { unfold positions. apply offsets_map. intros j Hj.
    apply in_seq in Hj.
    rewrite (position_rect Hr) by lia.
    unfold c. cbn [map].
    rewrite (@nth_map_in _ _ Z.of_nat bad j 0 0%Z) by (fold k; lia).
    rewrite (@nth_map_in _ _ Z.of_nat (seq 0 k) j 0 0%Z)
      by (rewrite length_seq; lia).
    rewrite seq_nth by lia.
    cbn [ravel]. rewrite !norm_index_nat by (try apply Hbad; lia).
    reflexivity. }
  set (W := write_all (repeat zero (size [T; k])) (map cell (seq 0 k))
                      (repeat one k)).
  assert (censors fd = Ok (mk_ndarray [T; k] W)) as Hcens.
  { unfold censors. fold bad. fold k. fold T. fold c.
    apply (@setitem_full spec_float (np_zeros [T; k]) c
             (mk_ndarray [] [one]) k (repeat one k) (map cell (seq 0 k)));
      auto.
    - discriminate.
    - apply broadcast_to_scalar. }
  assert (length W = size [T; k]) as HlW
    by (unfold W; now rewrite write_all_length, repeat_length).
  exists (mk_ndarray [T; k] W).
  split; [exact Hcens|]. split; [cbn [shape]; now rewrite HT|].
  split; [exact HlW|].
  split; [apply find_true_length|].
  split; [intros i; rewrite <- (fd_fill_length fd); apply bad_vols_In|].
  split; [apply find_true_sorted|].
  split; [|split].
  - intros i j Hi Hj. fold k in Hj. rewrite <- HT in Hi.
    rewrite (@item_at spec_float (mk_ndarray [T; k] W)
               [Z.of_nat i; Z.of_nat j] (i * (k * 1) + (j * 1 + 0)))
      by (auto; cbn [shape ravel]; now rewrite !norm_index_nat by lia).
    cbn [data].
    rewrite nth_error_nth' with (d := zero)
      by (rewrite HlW; cbn [size]; nia).
    f_equal. unfold W.
    destruct (Nat.eqb_spec i (nth j bad 0)) as [->|Hne].
    + replace (repeat one k) with (repeat (@one spec_float _)
                                           (length (map cell (seq 0 k))))
        by now rewrite length_map, length_seq.
      apply write_all_const.
      * apply in_map_iff. exists j. split; [reflexivity|].
        apply in_seq. lia.
      * rewrite repeat_length. cbn [size]. specialize (Hbad j Hj). nia.
    + rewrite write_all_notin.
      * apply nth_repeat.
      * intros Hin. apply in_map_iff in Hin as (j' & E & Hj').
        apply in_seq in Hj'. unfold cell in E.
        destruct (@same_cell k (nth j' bad 0) j' i j) as [E1 E2]; try lia.
        subst j'. congruence.
  - discriminate.
  - intros i Hi Hnan Hin. apply bad_vols_In in Hin as [Hi' Hle].
    unfold fd_fill in Hle.
    rewrite (@nth_map_in _ _ (fun x => if np_isnan x then zero else x)
               fd i zero zero Hi) in Hle.
    rewrite Hnan in Hle. vm_compute in Hle. discriminate.
Qed.

(** ** The design matrix *)

Section DesignMatrixProps.
Context {A : Type} `{Dtype A}.

Lemma as_column_2d (a : ndarray A) n p :
  shape a = [n; p] -> as_column a = a.
Proof. intros Hs. unfold as_column. now rewrite Hs. Qed.

Lemma as_column_1d (a : ndarray A) n :
  shape a = [n] -> as_column a = mk_ndarray [n; 1] (data a).
Proof. intros Hs. unfold as_column. now rewrite Hs. Qed.

(** stacking two arrays that both have [n] rows *)
Lemma column_stack_pair (a b : ndarray A) n p q :
  shape (as_column a) = [n; p] -> shape (as_column b) = [n; q] ->
  np_column_stack [a; b]
  = Ok (mk_ndarray [n; p + q]
          (flat_map (fun i => block (data (as_column a)) (i * p) p
                              ++ block (data (as_column b)) (i * q) q)
                    (seq 0 n))).
Proof.
  intros Ha Hb. unfold np_column_stack. cbn [map forallb].
  unfold same_rows, ncols, rowlen. rewrite Ha, Hb.
  rewrite Nat.eqb_refl.
  destruct (list_eq_dec Nat.eq_dec [] []) as [_|Hne]; [|congruence].
  cbn [andb nth skipn list_sum fold_right size].
  f_equal. f_equal.
  - f_equal. f_equal. lia.
  - apply flat_map_ext. intros i.
    cbn [flat_map]. rewrite Ha, Hb. cbn [size].
    now rewrite app_nil_r, !Nat.mul_1_r.
Qed.

(** the rows of a stacked pair: first the row of [a], then the row of [b] *)
Lemma column_stack_nth (da db : list A) n p q :
  length da = n * p -> length db = n * q ->
  length (flat_map (fun i => block da (i * p) p ++ block db (i * q) q)
                   (seq 0 n)) = n * (p + q)
  /\ forall i j dflt, i < n -> j < p + q ->
       nth (i * (p + q) + j)
           (flat_map (fun i => block da (i * p) p ++ block db (i * q) q)
                     (seq 0 n)) dflt
       = if j <? p then nth (i * p + j) da dflt
         else nth (i * q + (j - p)) db dflt.
Proof.
  intros Hda Hdb.
  assert (forall i, In i (seq 0 n) ->
                    length (block da (i * p) p ++ block db (i * q) q) = p + q)
    as Hrow.
  { intros i Hi. apply in_seq in Hi.
    rewrite length_app, !block_length by nia. reflexivity. }
  split.
  - rewrite (@flat_map_blocks_length A nat _ (seq 0 n) (p + q) Hrow).
    now rewrite length_seq.
  - intros i j dflt Hi Hj.
    rewrite (@nth_flat_map_blocks A nat _ (seq 0 n) (p + q) i j 0 dflt Hrow)
      by (rewrite ?length_seq; assumption).
    rewrite seq_nth by assumption. cbn [Nat.add].
    destruct (Nat.ltb_spec j p) as [Hlt|Hge].
    + rewrite app_nth1 by (rewrite block_length; nia).
      now apply nth_block.
    + rewrite app_nth2 by (rewrite block_length; nia).
      rewrite block_length by nia.
      apply nth_block. lia.
Qed.

(** C7.  With task regressors of shape (n_trs, p) and nuisance regressors of
    shape (n_trs, q), the confound matrix is the nuisance columns followed
    by the intercept, and the design matrix has one row per acquired volume
    and p + q + 1 columns, the last of which is constant 1.  Two task
    regressors and three confound columns give six columns. *)
Theorem design_matrix_shape (blocks_hrf nuisance : ndarray A) n_trs p q :
  wf blocks_hrf -> wf nuisance ->
  shape blocks_hrf = [n_trs; p] -> shape nuisance = [n_trs; q] ->
  exists c x,
    confounds nuisance n_trs = Ok c
    /\ X blocks_hrf c = Ok x
    /\ shape x = [n_trs; p + q + 1]
    /\ wf x
    /\ (forall i, i < n_trs ->
          item x [Z.of_nat i; Z.of_nat (p + q)] = Some one)
    /\ (p = 2 -> q = 3 -> shape x = [n_trs; 6]).
Proof.
  intros Hwb Hwn Hsb Hsn.
  assert (length (data blocks_hrf) = n_trs * p) as Hlb
    by (unfold wf in Hwb; rewrite Hwb, Hsb; cbn [size]; lia).
  assert (length (data nuisance) = n_trs * q) as Hln
    by (unfold wf in Hwn; rewrite Hwn, Hsn; cbn [size]; lia).
  set (ones := repeat (@one A _) n_trs).
  assert (length ones = n_trs * 1) as Hlo
    by (unfold ones; rewrite repeat_length; lia).
  set (Dc := flat_map (fun i => block (data nuisance) (i * q) q
                                ++ block ones (i * 1) 1) (seq 0 n_trs)).
  assert (confounds nuisance n_trs = Ok (mk_ndarray [n_trs; q + 1] Dc)) as Hc.
  { unfold confounds.
    rewrite (@column_stack_pair nuisance (intercept n_trs) n_trs q 1).
    - now rewrite (as_column_2d nuisance Hsn).
    - now rewrite (as_column_2d nuisance Hsn).
    - reflexivity. }
  destruct (@column_stack_nth (data nuisance) ones n_trs q 1 Hln Hlo)
    as (HlDc & HnDc). fold Dc in HlDc, HnDc.
  set (Dx := flat_map (fun i => block (data blocks_hrf) (i * p) p
                                ++ block Dc (i * (q + 1)) (q + 1))
                      (seq 0 n_trs)).
  assert (X blocks_hrf (mk_ndarray [n_trs; q + 1] Dc)
          = Ok (mk_ndarray [n_trs; p + (q + 1)] Dx)) as Hx.
  { unfold X.
    rewrite (@column_stack_pair blocks_hrf (mk_ndarray [n_trs; q + 1] Dc)
               n_trs p (q + 1)).
    - now rewrite (as_column_2d blocks_hrf Hsb).
    - now rewrite (as_column_2d blocks_hrf Hsb).
    - reflexivity. }
  destruct (@column_stack_nth (data blocks_hrf) Dc n_trs p (q + 1) Hlb HlDc)
    as (HlDx & HnDx). fold Dx in HlDx, HnDx.
  exists (mk_ndarray [n_trs; q + 1] Dc), (mk_ndarray [n_trs; p + (q + 1)] Dx).
  split; [exact Hc|]. split; [exact Hx|].
  split; [cbn [shape]; f_equal; f_equal; lia|].
  split; [unfold wf; cbn [shape data size]; lia|].
  split.
  - intros i Hi.
    rewrite (@item_at A (mk_ndarray [n_trs; p + (q + 1)] Dx)
               [Z.of_nat i; Z.of_nat (p + q)]
               (i * ((p + (q + 1)) * 1) + ((p + q) * 1 + 0)))
      by (auto; cbn [shape ravel]; now rewrite !norm_index_nat by lia).
    cbn [data].
    rewrite nth_error_nth' with (d := one) by nia.
    f_equal.
    replace (i * ((p + (q + 1)) * 1) + ((p + q) * 1 + 0))
      with (i * (p + (q + 1)) + (p + q)) by lia.
    rewrite HnDx by lia.
    destruct (Nat.ltb_spec (p + q) p) as [Hlt|Hge].
    + assert (q = 0) as -> by lia. lia.
    + replace (p + q - p) with q by lia.
      rewrite HnDc by lia.
      destruct (Nat.ltb_spec q q) as [?|_]; [lia|].
      unfold ones. apply nth_repeat.
  - intros -> ->. reflexivity.
Qed.
End DesignMatrixProps.

Lemma design_matrix_shape_witness :
  exists c x,
    confounds (mk_ndarray [2; 3] [10; 11; 12; 13; 14; 15]%Z) 2 = Ok c
    /\ X (mk_ndarray [2; 2] [1; 2; 3; 4]%Z) c = Ok x
    /\ shape x = [2; 6]
    /\ wf x
    /\ (forall i, i < 2 -> item x [Z.of_nat i; 5%Z] = Some 1%Z).
Proof.
  destruct (@design_matrix_shape Z _
              (mk_ndarray [2; 2] [1; 2; 3; 4]%Z)
              (mk_ndarray [2; 3] [10; 11; 12; 13; 14; 15]%Z) 2 2 3)
    as (c & x & Hc & Hx & _ & Hwf & Hone & Hsix);
    try reflexivity.
  exists c, x. repeat split; auto.
Defined.


(** * Further properties of the notebook code *)

(** ** What gathering returns *)

Section GatherContent.
Context {A : Type} `{Dtype A}.

Lemma where_coords_nonempty (s : list nat) os :
  s <> [] -> where_coords s os <> [].
Proof.
  intros Hs E. apply (f_equal (@length _)) in E.
  rewrite where_coords_length in E. destruct s; simpl in E; congruence.
Qed.

(** without a time axis, the gathered vector lists the grid's values at the
    true positions of the mask *)
Lemma bold_masked_space (m : ndarray bool) (g : ndarray A) :
  wf m -> wf g -> shape m <> [] -> shape g = shape m ->
  bold_masked g (where_coords (shape m) (find_true 0 (data m)))
  = Ok (mk_ndarray [count_true (data m)]
          (map (fun k => nth k (data g) zero) (find_true 0 (data m)))).
Proof.
  intros Hwf Hwg Hne Hs.
  destruct (np_where_spec Hwf Hne) as (_ & Hlen & Hr & Hos).
  set (os := find_true 0 (data m)) in *.
  set (c := where_coords (shape m) os) in *.
  assert (c <> []) as Hc by now apply where_coords_nonempty.
  assert (count_true (data m) = length os) as Hn
    by (symmetry; apply find_true_length).
  assert (forall k, In k os -> k < size (shape m)) as Hbound
    by (intros k Hk; now apply wf_true_positions).
  assert (shape g = shape m ++ []) as Hs' by now rewrite app_nil_r.
  assert (length (data g) = size (shape m) * 1) as Hlg
    by (unfold wf in Hwg; rewrite Hwg, Hs; lia).
  destruct (@gathered_nth A _ (data g) os 1 (size (shape m)) Hlg Hbound)
    as (HlenD & HnthD).
  rewrite (@bold_masked_ok A _ g c (shape m) [] _ os Hc Hr Hlen Hs' Hos).
  cbn [size].
  set (D := flat_map (fun o => block (data g) o 1) (map (fun o => o * 1) os))
    in *.
  assert (D = map (fun k => nth k (data g) zero) os) as HD.
  { apply nth_ext with (d := zero) (d' := zero).
    - now rewrite HlenD, length_map, Nat.mul_1_r.
    - intros i Hi. rewrite HlenD, Nat.mul_1_r in Hi.
      rewrite (@nth_map_in nat A (fun k => nth k (data g) zero) os i 0 zero Hi).
      specialize (HnthD i 0 Hi ltac:(lia)).
      now rewrite !Nat.mul_1_r, !Nat.add_0_r in HnthD. }
  f_equal. rewrite HD.
  apply transpose_1d with (n := count_true (data m)); [reflexivity|].
  cbn [data]. now rewrite length_map.
Qed.

Lemma item_1d (a : ndarray A) n i :
  shape a = [n] -> i < n ->
  item a [Z.of_nat i] = nth_error (data a) i.
Proof.
  intros Hs Hi.
  rewrite (@item_at A a [Z.of_nat i] (i * size [] + 0)).
  - f_equal. cbn [size]. lia.
  - unfold ndim. now rewrite Hs.
  - rewrite Hs. cbn [ravel]. now rewrite norm_index_nat.
Qed.

Lemma item_2d (a : ndarray A) n p i j :
  shape a = [n; p] -> i < n -> j < p ->
  item a [Z.of_nat i; Z.of_nat j] = nth_error (data a) (i * p + j).
Proof.
  intros Hs Hi Hj.
  rewrite (@item_at A a [Z.of_nat i; Z.of_nat j]
             (i * size [p] + (j * size [] + 0))).
  - f_equal. cbn [size]. lia.
  - unfold ndim. now rewrite Hs.
  - rewrite Hs. cbn [ravel]. now rewrite !norm_index_nat.
Qed.

(** X1.  Entry [i] of the gathered vector (entry [(t, i)] of the gathered
    matrix when the grid has a time axis) is the grid's value at the [i]-th
    true position of the mask (at time [t]). *)
Theorem bold_masked_entries (m : ndarray bool) (g : ndarray A) :
  wf m -> wf g -> shape m <> [] ->
  exists c,
    mask_coords m = Ok c
    /\ (forall i, i < count_true (data m) ->
          item m (position c i) = Some true)
    /\ (shape g = shape m ->
        exists G,
          bold_masked g c = Ok G
          /\ forall i, i < count_true (data m) ->
               item G [Z.of_nat i] = item g (position c i)
               /\ item G [Z.of_nat i] <> None)
    /\ (forall T, shape g = shape m ++ [T] ->
        exists G,
          bold_masked g c = Ok G
          /\ forall t i, t < T -> i < count_true (data m) ->
               item G [Z.of_nat t; Z.of_nat i]
               = item g (position c i ++ [Z.of_nat t])
               /\ item G [Z.of_nat t; Z.of_nat i] <> None).
Proof.
  intros Hwf Hwg Hne.
  destruct (np_where_spec Hwf Hne) as (Hw & Hlen & Hr & Hos).
  set (os := find_true 0 (data m)) in *.
  set (c := where_coords (shape m) os) in *.
  assert (c <> []) as Hc by now apply where_coords_nonempty.
  assert (count_true (data m) = length os) as Hn
    by (symmetry; apply find_true_length).
  assert (forall k, In k os -> k < size (shape m)) as Hbound
    by (intros k Hk; now apply wf_true_positions).
  assert (forall i, i < length os ->
            length (position c i) = ndim m
            /\ ravel (shape m) (position c i) = Some (nth i os 0)
            /\ nth i os 0 < size (shape m)
            /\ nth (nth i os 0) (data m) false = true) as Hpos.
  { intros i Hi.
    assert (In (nth i os 0) os) as Hin by now apply nth_In.
    split; [now rewrite position_length|]. split; [|split].
    - unfold c. rewrite where_coords_position by assumption.
      apply ravel_unravel. now apply Hbound.
    - now apply Hbound.
    - now apply find_true_In0. }
  exists c. split; [exact Hw|]. split; [|split].
  - intros i Hi. rewrite Hn in Hi.
    destruct (Hpos i Hi) as (Hl & Hk & Hb & Ht).
    rewrite (@item_at bool m (position c i) (nth i os 0) Hl Hk).
    rewrite nth_error_nth' with (d := false) by (unfold wf in Hwf; lia).
    now rewrite Ht.
  - intros Hs. eexists. split; [apply (bold_masked_space Hwf Hwg Hne Hs)|].
    intros i Hi. fold os. rewrite Hn in Hi.
    destruct (Hpos i Hi) as (Hl & Hk & Hb & _).
    rewrite (@item_1d _ (length os) i) by (cbn [shape]; congruence || lia).
    cbn [data].
    rewrite (@item_at A g (position c i) (nth i os 0))
      by (unfold ndim in *; congruence).
    rewrite nth_error_map.
    rewrite (nth_error_nth' os 0 Hi). cbn [option_map].
    rewrite (nth_error_nth' (data g) zero)
      by (unfold wf in Hwg; rewrite Hwg, Hs; exact Hb).
    split; [reflexivity | discriminate].
  - intros T Hs.
    assert (length (data g) = size (shape m) * T) as Hlg
      by (unfold wf in Hwg; rewrite Hwg, Hs, size_app, size_one; lia).
    destruct (@gathered_nth A _ (data g) os T (size (shape m)) Hlg Hbound)
      as (HlenD & HnthD).
    eexists. split.
    + apply (@bold_masked_ok A _ g c (shape m) [T] _ os Hc Hr Hlen Hs Hos).
    + intros t i Ht Hi. rewrite Hn in Hi. rewrite Hn, size_one.
      set (G0 := mk_ndarray [length os; T] _).
      destruct (Hpos i Hi) as (Hl & Hk & Hb & _).
      rewrite (@item_2d (transpose G0) T (length os) t i)
        by (auto; rewrite transpose_shape; reflexivity).
      rewrite nth_error_nth' with (d := zero)
        by (rewrite transpose_data_length; cbn [shape G0 size]; nia).
      rewrite (@transpose_2d_nth A _ G0 (length os) T i t) by auto.
      cbn [data G0]. rewrite HnthD by assumption.
      rewrite (@item_at A g (position c i ++ [Z.of_nat t])
                 (nth i os 0 * size [T] + (t * size [] + 0))).
      * rewrite size_one. cbn [size].
        replace (nth i os 0 * T + (t * 1 + 0)) with (nth i os 0 * T + t) by lia.
        rewrite nth_error_nth' with (d := zero) by (rewrite Hlg; nia).
        split; [reflexivity | discriminate].
      * unfold ndim in *. rewrite Hs, !length_app. simpl. lia.
      * rewrite Hs. apply ravel_app_full; auto.
        cbn [ravel]. now rewrite norm_index_nat.
Qed.

(** X2.  Reading the scattered grid back at the mask's coordinates returns
    the values that were scattered. *)
Theorem scatter_then_gather (m : ndarray bool) (v : ndarray A) :
  wf m -> wf v -> shape m <> [] ->
  shape v = [count_true (data m)] ->
  exists c out,
    mask_coords m = Ok c
    /\ beta_map_dense (shape m) c v = Ok out
    /\ shape out = shape m
    /\ wf out
    /\ bold_masked out c = Ok v.
Proof.
  intros Hwf Hwv Hne Hsv.
  destruct (np_where_spec Hwf Hne) as (Hw & Hlen & Hr & Hos).
  set (os := find_true 0 (data m)) in *.
  set (c := where_coords (shape m) os) in *.
  assert (c <> []) as Hc by now apply where_coords_nonempty.
  assert (count_true (data m) = length os) as Hn
    by (symmetry; apply find_true_length).
  assert (length (data v) = count_true (data m)) as Hlv
    by (unfold wf in Hwv; rewrite Hwv, Hsv; apply size_one).
  set (W := write_all (repeat zero (size (shape m))) os (data v)).
  assert (length W = size (shape m)) as HlW
    by (unfold W; now rewrite write_all_length, repeat_length).
  assert (beta_map_dense (shape m) c v = Ok (mk_ndarray (shape m) W)) as Hd.
  { unfold beta_map_dense.
    exact (@setitem_full A (np_zeros (shape m)) c v (count_true (data m))
             (data v) os Hc Hr Hlen (@broadcast_to_1d A v _ Hsv Hlv) Hos). }
  exists c, (mk_ndarray (shape m) W).
  split; [exact Hw|]. split; [exact Hd|]. split; [reflexivity|].
  split; [exact HlW|].
  unfold c, os.
  rewrite (@bold_masked_space m (mk_ndarray (shape m) W) Hwf HlW Hne eq_refl).
  fold os. cbn [data]. f_equal.
  destruct v as [sv dv]. cbn [shape data] in *. subst sv. f_equal.
  apply nth_ext with (d := zero) (d' := zero).
  - rewrite length_map. lia.
  - intros i Hi. rewrite length_map in Hi.
    rewrite (@nth_map_in nat A (fun k => nth k W zero) os i 0 zero Hi).
    unfold W. apply write_all_nth; try lia.
    + apply find_true_NoDup.
    + rewrite repeat_length. apply wf_true_positions; auto.
      now apply nth_In.
Qed.
End GatherContent.

Lemma bold_masked_entries_witness :
  exists c G,
    mask_coords mask2 = Ok c
    /\ bold_masked surface2x2 c = Ok G
    /\ item G [1; 0]%Z = item surface2x2 (position c 0 ++ [1%Z])
    /\ item G [1; 0]%Z <> None.
Proof.
  destruct (@bold_masked_entries Z _ mask2 surface2x2)
    as (c & Hc & _ & _ & Htime);
    [reflexivity | reflexivity | discriminate |].
  destruct (Htime 2 eq_refl) as (G & HG & Hent).
  destruct (Hent 1 0 ltac:(lia) ltac:(vm_compute; lia)) as (E & Hsome).
  exists c, G. repeat split; assumption.
Defined.

Lemma scatter_then_gather_witness :
  exists c out,
    mask_coords mask4x4 = Ok c
    /\ beta_map_dense (shape mask4x4) c (mk_ndarray [2] [5; 10]%Z) = Ok out
    /\ shape out = shape mask4x4
    /\ wf out
    /\ bold_masked out c = Ok (mk_ndarray [2] [5; 10]%Z).
Proof.
  apply (@scatter_then_gather Z _ mask4x4 (mk_ndarray [2] [5; 10]%Z));
    [reflexivity | reflexivity | discriminate | reflexivity].
Defined.

(** ** The gray-matter mask *)

(** X3.  Gathering the segmentation through its own gray-matter mask returns
    only labels equal to 3 or 42, one for every voxel carrying such a label;
    voxels whose label is NaN or anything else are never selected. *)
Theorem gray_matter_mask_selects_cortex (aseg : ndarray spec_float) :
  wf aseg -> shape aseg <> [] ->
  exists c G,
    mask_coords (mask_bool aseg) = Ok c
    /\ bold_masked aseg c = Ok G
    /\ shape G = [count_true (map is_cortex (data aseg))]
    /\ wf G
    /\ Forall (fun x => is_cortex x = true) (data G)
    /\ (forall p x, item aseg p = Some x ->
          item (mask_bool aseg) p = Some (is_cortex x)).
Proof.
  intros Hwf Hne.
  destruct (mask_bool_shape aseg) as (Hs & Hwm). specialize (Hwm Hwf).
  assert (shape (mask_bool aseg) <> []) as Hne' by now rewrite Hs.
  exists (where_coords (shape (mask_bool aseg))
            (find_true 0 (data (mask_bool aseg)))).
  eexists. split; [now apply np_where_ok|].
  split; [apply (@bold_masked_space _ _ (mask_bool aseg) aseg Hwm Hwf Hne');
          now rewrite Hs|].
  split; [reflexivity|]. split; [|split].
  - unfold wf. cbn [shape data].
    now rewrite length_map, find_true_length, size_one.
  - cbn [data]. apply Forall_forall. intros x Hx.
    apply in_map_iff in Hx as (k & <- & Hk).
    assert (k < length (data aseg)) as Hlt.
    { apply find_true_bound in Hk. cbn [data mask_bool] in Hk.
      rewrite length_map in Hk. lia. }
    apply find_true_In0 in Hk. cbn [data mask_bool] in Hk.
    now rewrite (@nth_map_in _ _ (fun x => SFeqb x f3 || SFeqb x f42)
                   (data aseg) k zero false Hlt) in Hk.
  - intros p x Hp.
    destruct (@item_inv _ aseg p x Hp) as (Hlp & k & Hk & Hx).
    rewrite (@item_at bool (mask_bool aseg) p k) by (unfold ndim in *; congruence).
    cbn [data mask_bool]. rewrite nth_error_map, Hx. reflexivity.
Qed.

Lemma gray_matter_mask_selects_cortex_witness :
  exists c G,
    mask_coords (mask_bool (mk_ndarray [2; 2] [f3; S754_nan; zero; f42])) = Ok c
    /\ bold_masked (mk_ndarray [2; 2] [f3; S754_nan; zero; f42]) c = Ok G
    /\ shape G = [2]
    /\ wf G
    /\ Forall (fun x => is_cortex x = true) (data G).
Proof.
  destruct (@gray_matter_mask_selects_cortex
              (mk_ndarray [2; 2] [f3; S754_nan; zero; f42]))
    as (c & G & Hc & HG & Hs & Hwf & Hall & _);
    [reflexivity | discriminate |].
  exists c, G. repeat split; assumption.
Defined.

(** ** Regions of interest *)

Lemma where_coords_1d n os :
  where_coords [n] os = [map Z.of_nat os].
Proof.
  unfold where_coords. cbn [length seq map]. f_equal.
  apply map_ext. intros k. cbn [unravel size nth].
  now rewrite Nat.div_1_r.
Qed.

Lemma label_mask_wf parcellation label : wf (label_mask parcellation label).
Proof.
  unfold wf, label_mask. cbn [shape data]. now rewrite length_map, size_one.
Qed.

Lemma roi_vertices_ok (parcellation : list Z) (label : Z) :
  roi_vertices parcellation label
  = Ok (map Z.of_nat
          (find_true 0 (map (fun l => Z.eqb l label) parcellation))).
Proof.
  unfold roi_vertices.
  change (mk_ndarray [length parcellation]
            (map (fun l => Z.eqb l label) parcellation))
    with (label_mask parcellation label).
  rewrite np_where_ok by (cbn; discriminate).
  cbn [shape data label_mask]. now rewrite where_coords_1d.
Qed.

(** the region-of-interest map as a buffer *)
Lemma roi_map_data (parcellation : list Z) (label : Z) :
  roi_map (length parcellation)
    (map Z.of_nat (find_true 0 (map (fun l => Z.eqb l label) parcellation)))
  = Ok (mk_ndarray [length parcellation]
          (map (fun l => if Z.eqb l label then 1%Z else 0%Z) parcellation)).
Proof.
  set (m := label_mask parcellation label).
  set (os := find_true 0 (map (fun l => Z.eqb l label) parcellation)).
  destruct (np_where_spec (label_mask_wf parcellation label))
    as (_ & Hlen & Hr & Hos); [cbn; discriminate|].
  cbn [shape data label_mask] in Hlen, Hr, Hos. fold os in Hlen, Hr, Hos.
  rewrite where_coords_1d in Hlen, Hr, Hos.
  unfold roi_map.
  rewrite (@setitem_full Z (np_zeros [length parcellation])
             [map Z.of_nat os] (mk_ndarray [] [one])
             (count_true (map (fun l => Z.eqb l label) parcellation))
             (repeat one (count_true (map (fun l => Z.eqb l label) parcellation)))
             os); auto.
  - cbn [shape np_zeros data]. f_equal. f_equal.
    apply nth_ext with (d := 0%Z) (d' := 0%Z).
    + now rewrite write_all_length, repeat_length, length_map, size_one.
    + intros i Hi.
      rewrite write_all_length, repeat_length, size_one in Hi.
      rewrite (@nth_map_in _ _ (fun l => if Z.eqb l label then 1%Z else 0%Z)
                 parcellation i 0%Z 0%Z Hi).
      destruct (Z.eqb (nth i parcellation 0%Z) label) eqn:E.
      * replace (count_true (map (fun l => Z.eqb l label) parcellation))
          with (length os) by apply find_true_length.
        apply (@write_all_const Z).
        -- apply find_true_In0.
           now rewrite (@nth_map_in _ _ (fun l => Z.eqb l label)
                          parcellation i 0%Z false Hi).
        -- now rewrite repeat_length, size_one.
      * rewrite write_all_notin.
        -- apply nth_repeat.
        -- unfold os. rewrite find_true_In0.
           rewrite (@nth_map_in _ _ (fun l => Z.eqb l label)
                      parcellation i 0%Z false Hi).
           now rewrite E.
  - discriminate.
  - apply broadcast_to_scalar.
Qed.

(** X4.  The region-of-interest map built from the vertices of a label holds
    1 at exactly the vertices whose parcellation entry is that label and 0 at
    every other vertex; a label that no vertex carries gives a map of zeros. *)
Theorem roi_map_is_indicator (parcellation : list Z) (label : Z) :
  exists v out,
    roi_vertices parcellation label = Ok v
    /\ roi_map (length parcellation) v = Ok out
    /\ shape out = [length parcellation]
    /\ forall i, i < length parcellation ->
         item out [Z.of_nat i]
         = Some (if Z.eqb (nth i parcellation 0%Z) label then 1%Z else 0%Z).
Proof.
  eexists. eexists.
  split; [apply roi_vertices_ok|].
  split; [apply roi_map_data|].
  split; [reflexivity|].
  intros i Hi.
  rewrite (@item_1d Z _ (length parcellation) i) by auto.
  cbn [data]. rewrite nth_error_map.
  now rewrite (nth_error_nth' parcellation 0%Z Hi).
Qed.

(** X5.  The vertices can be read back from the map: looking for the entries
    of the region-of-interest map that equal 1 returns the vertices the map
    was built from. *)
Theorem roi_vertices_from_roi_map (parcellation : list Z) (label : Z) v out :
  roi_vertices parcellation label = Ok v ->
  roi_map (length parcellation) v = Ok out ->
  roi_vertices (data out) 1%Z = Ok v.
Proof.
  rewrite roi_vertices_ok. intros [= <-].
  rewrite roi_map_data. intros [= <-].
  rewrite roi_vertices_ok. cbn [data]. rewrite map_map.
  do 3 f_equal. apply map_ext. intros l.
  now destruct (Z.eqb l label).
Qed.

Lemma roi_vertices_from_roi_map_witness :
  roi_vertices (data (mk_ndarray [5] [0; 1; 0; 1; 1]%Z)) 1%Z
  = Ok [1; 3; 4]%Z.
Proof.
  apply (@roi_vertices_from_roi_map [1; 2; 3; 2; 2]%Z 2%Z);
    vm_compute; reflexivity.
Defined.

(** ** Looking up the label *)

Lemma list_index_ok labels roi_label i :
  list_index labels roi_label = Ok i ->
  nth_error labels i = Some roi_label
  /\ forall j, j < i -> nth_error labels j <> Some roi_label.
Proof.
  revert i; induction labels as [|l labels IH]; intros i; simpl;
    [discriminate|].
  destruct (String.eqb_spec l roi_label) as [->|Hne].
  - intros [= <-]. split; [reflexivity | intros j Hj; lia].
  - destruct (list_index labels roi_label) as [i'|e]; [|discriminate].
    cbn [bind]. intros [= <-].
    destruct (IH i' eq_refl) as (Hi & Hfirst).
    split; [exact Hi|].
    intros [|j] Hj; simpl; [congruence|].
    apply Hfirst. lia.
Qed.

Lemma list_index_missing labels roi_label :
  ~ In roi_label labels <-> list_index labels roi_label = Raise ValueError.
Proof.
  induction labels as [|l labels IH]; simpl.
  - tauto.
  - destruct (String.eqb_spec l roi_label) as [->|Hne].
    + split; [tauto | discriminate].
    + destruct (list_index labels roi_label) as [i'|e]; cbn [bind].
      * split; [|discriminate].
        intros Hn. exfalso.
        assert (~ In roi_label labels) as Hn' by tauto.
        apply IH in Hn'. discriminate.
      * split; intros Hq.
        -- assert (~ In roi_label labels) as Hn' by tauto.
           apply IH in Hn'. congruence.
        -- intros [?|Hin]; [congruence|].
           injection Hq as ->. now apply IH in Hin.
Qed.

(** X6.  Selecting a region by name fails with [ValueError] exactly when the
    name is not among the labels.  Otherwise the name is resolved to the
    position of its first occurrence, and the vertices returned are exactly
    those whose parcellation entry is that position. *)
Theorem roi_vertices_of_label_spec (parcellation : list Z)
        (labels : list String.string) (roi_label : String.string) :
  (~ In roi_label labels <->
   roi_vertices_of_label parcellation labels roi_label = Raise ValueError)
  /\ (In roi_label labels ->
      exists i v,
        list_index labels roi_label = Ok i
        /\ nth_error labels i = Some roi_label
        /\ (forall j, j < i -> nth_error labels j <> Some roi_label)
        /\ roi_vertices_of_label parcellation labels roi_label = Ok v
        /\ forall k, In (Z.of_nat k) v
                     <-> nth_error parcellation k = Some (Z.of_nat i)).
Proof.
  unfold roi_vertices_of_label. split.
  - rewrite list_index_missing.
    destruct (list_index labels roi_label) as [i|e]; cbn [bind].
    + rewrite roi_vertices_ok. split; discriminate.
    + split; intros [= ->]; reflexivity.
  - intros Hin.
    destruct (list_index labels roi_label) as [i|e] eqn:E.
    + destruct (list_index_ok _ _ E) as (Hi & Hfirst).
      exists i. eexists. split; [reflexivity|].
      split; [exact Hi|]. split; [exact Hfirst|].
      cbn [bind]. split; [apply roi_vertices_ok|].
      intros k. rewrite in_map_iff. split.
      * intros (k' & Hk' & Hk). apply Nat2Z.inj in Hk'. subst k'.
        assert (k < length parcellation) as Hlt.
        { apply find_true_bound in Hk. rewrite length_map in Hk. lia. }
        apply find_true_In0 in Hk.
        rewrite (@nth_map_in _ _ (fun l => Z.eqb l (Z.of_nat i))
                   parcellation k 0%Z false Hlt) in Hk.
        apply Z.eqb_eq in Hk.
        now rewrite (nth_error_nth' parcellation 0%Z Hlt), Hk.
      * intros Hk. exists k. split; [reflexivity|].
        assert (k < length parcellation) as Hlt
          by (apply nth_error_Some; congruence).
        apply find_true_In0.
        rewrite (@nth_map_in _ _ (fun l => Z.eqb l (Z.of_nat i))
                   parcellation k 0%Z false Hlt).
        apply Z.eqb_eq. now apply nth_error_nth.
    + exfalso.
      assert (e = ValueError) as ->.
      { clear -E. revert E. induction labels as [|l labels IH]; simpl.
        - now intros [= <-].
        - destruct (String.eqb l roi_label); [discriminate|].
          destruct (list_index labels roi_label); cbn [bind];
            [discriminate|].
          intros [= <-]. now apply IH. }
      apply list_index_missing in E. tauto.
Qed.

Lemma roi_vertices_of_label_spec_witness :
  exists i v,
    list_index ["a"; "b"; "c"; "b"]%str "b"%str = Ok i
    /\ nth_error ["a"; "b"; "c"; "b"]%str i = Some "b"%str
    /\ (forall j, j < i -> nth_error ["a"; "b"; "c"; "b"]%str j <> Some "b"%str)
    /\ roi_vertices_of_label [1; 0; 1; 3]%Z ["a"; "b"; "c"; "b"]%str "b"%str
       = Ok v
    /\ forall k, In (Z.of_nat k) v
                 <-> nth_error [1; 0; 1; 3]%Z k = Some (Z.of_nat i).
Proof.
  apply (proj2 (@roi_vertices_of_label_spec [1; 0; 1; 3]%Z
                  ["a"; "b"; "c"; "b"]%str "b"%str)).
  simpl. auto.
Defined.

(** ** More on the motion censors *)

(** the censor matrix, cell by cell *)
Lemma censors_cells (fd : list spec_float) :
  exists cm,
    censors fd = Ok cm
    /\ shape cm = [length fd; length (bad_vols (fd_fill fd))]
    /\ forall i j, i < length fd -> j < length (bad_vols (fd_fill fd)) ->
         item cm [Z.of_nat i; Z.of_nat j]
         = Some (if i =? nth j (bad_vols (fd_fill fd)) 0 then one else zero).
Proof.
  set (bad := bad_vols (fd_fill fd)).
  set (k := length bad).
  set (T := length (fd_fill fd)).
  set (c := [map Z.of_nat bad; map Z.of_nat (seq 0 k)]).
  set (cell := fun j => nth j bad 0 * (k * 1) + (j * 1 + 0)).
  assert (T = length fd) as HT by apply fd_fill_length.
  assert (forall j, j < k -> nth j bad 0 < T) as Hbad.
  { intros j Hj.
    assert (In (nth j bad 0) bad) as Hin by now apply nth_In.
    apply bad_vols_In in Hin. tauto. }
  assert (rect k c) as Hr.
  { unfold rect, c. repeat constructor.
    - apply length_map.
    - now rewrite length_map, length_seq. }
  assert (offsets [T; k] (positions c k) = Some (map cell (seq 0 k))) as Hos.
  { unfold positions. apply offsets_map. intros j Hj.
    apply in_seq in Hj.
    rewrite (position_rect Hr) by lia.
    unfold c. cbn [map].
    rewrite (@nth_map_in _ _ Z.of_nat bad j 0 0%Z) by (fold k; lia).
    rewrite (@nth_map_in _ _ Z.of_nat (seq 0 k) j 0 0%Z)
      by (rewrite length_seq; lia).
    rewrite seq_nth by lia.
    cbn [ravel]. rewrite !norm_index_nat by (try apply Hbad; lia).
    reflexivity. }
  set (W := write_all (repeat zero (size [T; k])) (map cell (seq 0 k))
                      (repeat one k)).
  assert (censors fd = Ok (mk_ndarray [T; k] W)) as Hcens.
  { unfold censors. fold bad. fold k. fold T. fold c.
    apply (@setitem_full spec_float (np_zeros [T; k]) c
             (mk_ndarray [] [one]) k (repeat one k) (map cell (seq 0 k)));
      auto.
    - discriminate.
    - apply broadcast_to_scalar. }
  assert (length W = size [T; k]) as HlW
    by (unfold W; now rewrite write_all_length, repeat_length).
  exists (mk_ndarray [T; k] W).
  split; [exact Hcens|]. split; [cbn [shape]; now rewrite HT|].
  intros i j Hi Hj. fold k in Hj. rewrite <- HT in Hi.
  rewrite (@item_2d spec_float (mk_ndarray [T; k] W) T k i j) by auto.
  cbn [data].
  rewrite nth_error_nth' with (d := zero) by (rewrite HlW; cbn [size]; nia).
  f_equal. unfold W.
  destruct (Nat.eqb_spec i (nth j bad 0)) as [->|Hne].
  - replace (repeat one k) with (repeat (@one spec_float _)
                                        (length (map cell (seq 0 k))))
      by now rewrite length_map, length_seq.
    apply write_all_const.
    + apply in_map_iff. exists j. split; [unfold cell; lia|].
      apply in_seq. lia.
    + rewrite repeat_length. cbn [size]. specialize (Hbad j Hj). nia.
  - rewrite write_all_notin.
    + apply nth_repeat.
    + intros Hin. apply in_map_iff in Hin as (j' & E & Hj').
      apply in_seq in Hj'. unfold cell in E.
      destruct (@same_cell k (nth j' bad 0) j' i j) as [E1 E2]; try lia.
      subst j'. congruence.
Qed.

Lemma bad_vols_NoDup fd : NoDup (bad_vols fd).
Proof. apply find_true_NoDup. Qed.

(** X7.  Read row by row, the censor matrix never censors a volume twice:
    the row of a volume below the threshold is all zero, and the row of a
    volume at or above it holds a single 1. *)
Theorem censors_rows (fd : list spec_float) :
  exists cm,
    censors fd = Ok cm
    /\ forall i, i < length fd ->
         (~ In i (bad_vols (fd_fill fd)) ->
          forall j, j < length (bad_vols (fd_fill fd)) ->
                    item cm [Z.of_nat i; Z.of_nat j] = Some zero)
         /\ (In i (bad_vols (fd_fill fd)) ->
             exists j,
               j < length (bad_vols (fd_fill fd))
               /\ item cm [Z.of_nat i; Z.of_nat j] = Some one
               /\ forall j', j' < length (bad_vols (fd_fill fd)) -> j' <> j ->
                    item cm [Z.of_nat i; Z.of_nat j'] = Some zero).
Proof.
  destruct (censors_cells fd) as (cm & Hc & _ & Hcell).
  exists cm. split; [exact Hc|].
  intros i Hi. split.
  - intros Hnot j Hj. rewrite (Hcell i j Hi Hj).
    destruct (Nat.eqb_spec i (nth j (bad_vols (fd_fill fd)) 0)) as [E|_];
      [|reflexivity].
    exfalso. apply Hnot. rewrite E. now apply nth_In.
  - intros Hin.
    destruct (In_nth _ _ 0 Hin) as (j & Hj & E).
    exists j. split; [exact Hj|]. split.
    + rewrite (Hcell i j Hi Hj), E. now rewrite Nat.eqb_refl.
    + intros j' Hj' Hne. rewrite (Hcell i j' Hi Hj').
      destruct (Nat.eqb_spec i (nth j' (bad_vols (fd_fill fd)) 0)) as [E'|_];
        [|reflexivity].
      exfalso. apply Hne.
      apply (proj1 (NoDup_nth (bad_vols (fd_fill fd)) 0)
                   (bad_vols_NoDup (fd_fill fd)) j' j Hj' Hj).
      congruence.
Qed.

Lemma count_true_all_false l :
  (forall b, In b l -> b = false) -> count_true l = 0.
Proof.
  unfold count_true. induction l as [|b l IH]; intros Hall; [reflexivity|].
  rewrite (Hall b) by (simpl; auto). simpl.
  apply IH. intros b' Hb'. apply Hall. simpl; auto.
Qed.

(** X8.  When no displacement reaches the threshold (every entry is NaN or
    below 0.25, or there are no volumes at all), the censor matrix is built
    without failure and has one row per volume and no column. *)
Theorem censors_without_bad_volumes (fd : list spec_float) :
  (forall x, In x fd -> np_isnan x = true \/ SFleb fd_threshold x = false) ->
  censors fd = Ok (mk_ndarray [length fd; 0] []).
Proof.
  intros Hall.
  assert (bad_vols (fd_fill fd) = []) as Hbad.
  { unfold bad_vols. apply find_true_none, count_true_all_false.
    intros b Hb. apply in_map_iff in Hb as (y & <- & Hy).
    unfold fd_fill in Hy. apply in_map_iff in Hy as (x & <- & Hx).
    destruct (Hall x Hx) as [Hn|Hle].
    - rewrite Hn. reflexivity.
    - destruct (np_isnan x); [reflexivity | exact Hle]. }
  unfold censors. rewrite Hbad, fd_fill_length. cbn [length seq map].
  rewrite (@setitem_full spec_float (np_zeros [length fd; 0]) [[]; []]
             (mk_ndarray [] [one]) 0 [] []).
  - cbn [np_zeros shape data size write_all combine fold_left].
    now rewrite Nat.mul_0_r.
  - discriminate.
  - repeat constructor.
  - reflexivity.
  - apply (broadcast_to_scalar (@one spec_float _) 0).
  - reflexivity.
Qed.

Lemma censors_without_bad_volumes_witness :
  censors [S754_nan; zero; S754_infinity true]
  = Ok (mk_ndarray [length [S754_nan; zero; S754_infinity true]; 0] []).
Proof.
  apply (@censors_without_bad_volumes [S754_nan; zero; S754_infinity true]).
  intros x [<-|[<-|[<-|[]]]]; vm_compute; auto.
Defined.

(** ** Censor labels *)

Lemma to_uint_nonnil n : Nat.to_uint n <> Decimal.Nil.
Proof.
  intros E.
  assert (n = 0) as -> by
    (rewrite <- (DecimalNat.Unsigned.of_to n), E; reflexivity).
  discriminate.
Qed.

Lemma str_of_nat_inj a b : str_of_nat a = str_of_nat b -> a = b.
Proof.
  unfold str_of_nat. intros E.
  apply DecimalNat.Unsigned.to_uint_inj.
  apply (f_equal DecimalString.NilZero.uint_of_string) in E.
  rewrite !DecimalString.NilZero.usu in E by apply to_uint_nonnil.
  now injection E.
Qed.

Lemma append_inj_r (p s1 s2 : String.string) :
  String.append p s1 = String.append p s2 -> s1 = s2.
Proof.
  induction p as [|a p IH]; simpl; [auto|].
  intros [= E]. now apply IH.
Qed.

Lemma NoDup_map_inj {X Y : Type} (f : X -> Y) (l : list X) :
  (forall a b, f a = f b -> a = b) -> NoDup l -> NoDup (map f l).
Proof.
  intros Hinj. induction 1 as [|x l Hx Hnd IH]; simpl; constructor; auto.
  intros Hin. apply in_map_iff in Hin as (y & E & Hy).
  apply Hinj in E. now subst y.
Qed.

(** X9.  There is one censor label per column of the censor matrix, that is
    one per censored volume; the labels are pairwise distinct, and none of
    them is the name of the intercept. *)
Theorem censor_labels_distinct (fd : list spec_float) :
  exists cm labels,
    censors fd = Ok cm
    /\ censor_labels cm = Ok labels
    /\ length labels = length (bad_vols (fd_fill fd))
    /\ NoDup labels
    /\ ~ In "intercept"%str labels.
Proof.
  destruct (censors_cells fd) as (cm & Hc & Hs & _).
  exists cm. eexists. split; [exact Hc|].
  unfold censor_labels. rewrite Hs.
  split; [reflexivity|]. split; [|split].
  - now rewrite length_map, length_seq.
  - apply NoDup_map_inj; [|apply seq_NoDup].
    intros a b E. now apply str_of_nat_inj, (append_inj_r "censor"%str).
  - intros Hin. apply in_map_iff in Hin as (c & E & _).
    discriminate.
Qed.

Lemma censor_labels_distinct_example :
  (c <- censors [one; zero; fd_threshold] ;; censor_labels c)
  = Ok ["censor0"; "censor1"]%str.
Proof. vm_compute. reflexivity. Qed.

(** ** More on the design matrix *)

Section DesignMatrixContent.
Context {A : Type} `{Dtype A}.

Lemma as_column_data (a : ndarray A) : data (as_column a) = data a.
Proof.
  unfold as_column. destruct (shape a) as [|n [|p s]]; reflexivity.
Qed.

Lemma as_column_wf (a : ndarray A) : wf a -> wf (as_column a).
Proof.
  unfold wf. rewrite as_column_data. intros ->.
  unfold as_column.
  destruct (shape a) as [|n [|p s]] eqn:E; cbn [shape size]; rewrite ?E;
    cbn [size]; lia.
Qed.

(** X10.  The design matrix keeps its inputs unchanged, column for column:
    its first columns are the task regressors (a one-dimensional regressor
    counts as one column), the remaining ones are the confounds. *)
Theorem design_matrix_entries (blocks_hrf confounds : ndarray A) n p q :
  wf blocks_hrf -> wf confounds ->
  shape (as_column blocks_hrf) = [n; p] ->
  shape (as_column confounds) = [n; q] ->
  exists x,
    X blocks_hrf confounds = Ok x
    /\ shape x = [n; p + q]
    /\ wf x
    /\ forall i, i < n ->
         (forall j, j < p ->
            item x [Z.of_nat i; Z.of_nat j]
            = item (as_column blocks_hrf) [Z.of_nat i; Z.of_nat j]
            /\ item x [Z.of_nat i; Z.of_nat j] <> None)
         /\ (forall j, j < q ->
               item x [Z.of_nat i; Z.of_nat (p + j)]
               = item (as_column confounds) [Z.of_nat i; Z.of_nat j]
               /\ item x [Z.of_nat i; Z.of_nat (p + j)] <> None).
Proof.
  intros Hwb Hwc Hsb Hsc.
  assert (length (data (as_column blocks_hrf)) = n * p) as Hlb.
  { apply as_column_wf in Hwb. unfold wf in Hwb.
    rewrite Hwb, Hsb. cbn [size]. lia. }
  assert (length (data (as_column confounds)) = n * q) as Hlc.
  { apply as_column_wf in Hwc. unfold wf in Hwc.
    rewrite Hwc, Hsc. cbn [size]. lia. }
  destruct (column_stack_nth (data (as_column blocks_hrf))
              (data (as_column confounds)) n p q Hlb Hlc) as (HlD & HnD).
  eexists. split; [unfold X; apply (column_stack_pair _ _ Hsb Hsc)|].
  split; [reflexivity|].
  split; [unfold wf; cbn [shape data size]; lia|].
  intros i Hi. split; intros j Hj.
  - rewrite (@item_2d A _ n (p + q) i j) by (auto; lia).
    rewrite (@item_2d A _ n p i j Hsb Hi Hj).
    cbn [data].
    rewrite nth_error_nth' with (d := zero) by nia.
    rewrite (nth_error_nth' (data (as_column blocks_hrf)) zero) by nia.
    rewrite HnD by lia.
    destruct (Nat.ltb_spec j p); [|lia].
    split; [reflexivity | discriminate].
  - rewrite Nat2Z.inj_add, <- Nat2Z.inj_add.
    rewrite (@item_2d A _ n (p + q) i (p + j)) by (auto; lia).
    rewrite (@item_2d A _ n q i j Hsc Hi Hj).
    cbn [data].
    rewrite nth_error_nth' with (d := zero) by nia.
    rewrite (nth_error_nth' (data (as_column confounds)) zero) by nia.
    rewrite HnD by lia.
    destruct (Nat.ltb_spec (p + j) p); [lia|].
    replace (p + j - p) with j by lia.
    split; [reflexivity | discriminate].
Qed.

(** X11.  Regressors and confounds that do not have the same number of rows
    cannot be assembled: the design matrix is refused with [ValueError]. *)
Theorem design_matrix_row_mismatch (blocks_hrf confounds : ndarray A) n n' p q :
  shape (as_column blocks_hrf) = [n; p] ->
  shape (as_column confounds) = [n'; q] ->
  n <> n' ->
  X blocks_hrf confounds = Raise ValueError.
Proof.
  intros Hsb Hsc Hne. unfold X, np_column_stack. cbn [map forallb].
  unfold same_rows. rewrite Hsb, Hsc.
  destruct (Nat.eqb_spec n n'); [congruence|]. reflexivity.
Qed.
End DesignMatrixContent.

Lemma design_matrix_entries_witness :
  exists x,
    X (mk_ndarray [2] [7; 8]%Z) (mk_ndarray [2; 2] [1; 2; 3; 4]%Z) = Ok x
    /\ shape x = [2; 1 + 2]
    /\ wf x
    /\ item x [1; 0]%Z = Some 8%Z
    /\ item x [1; 2]%Z = Some 4%Z.
Proof.
  destruct (@design_matrix_entries Z _ (mk_ndarray [2] [7; 8]%Z)
              (mk_ndarray [2; 2] [1; 2; 3; 4]%Z) 2 1 2)
    as (x & Hx & Hs & Hwf & Hent); try reflexivity.
  destruct (Hent 1 ltac:(lia)) as (Hb & Hc).
  exists x. repeat split; try assumption.
  - exact (proj1 (Hb 0 ltac:(lia))).
  - exact (proj1 (Hc 1 ltac:(lia))).
Defined.

Lemma design_matrix_row_mismatch_witness :
  X (mk_ndarray [3] [7; 8; 9]%Z) (mk_ndarray [2; 2] [1; 2; 3; 4]%Z)
  = Raise ValueError.
Proof.
  apply (@design_matrix_row_mismatch Z (mk_ndarray [3] [7; 8; 9]%Z)
           (mk_ndarray [2; 2] [1; 2; 3; 4]%Z) 3 2 1 2);
    [reflexivity | reflexivity | lia].
Defined.

(** ** Zeros and NaN in the beta map *)

(** X12.  Turning zeros into NaN changes nothing but the cells that compare
    equal to zero, and doing it a second time changes nothing at all. *)
Theorem nan_where_zero_idempotent (m : ndarray spec_float) :
  nan_where_zero (nan_where_zero m) = nan_where_zero m
  /\ shape (nan_where_zero m) = shape m
  /\ forall p x, item m p = Some x -> SFeqb x zero = false ->
       item (nan_where_zero m) p = Some x.
Proof.
  split; [|split].
  - unfold nan_where_zero. cbn [shape data]. f_equal.
    rewrite map_map. apply map_ext. intros x.
    now rewrite nan_where_zero_no_zero.
  - reflexivity.
  - intros p x Hp Hx.
    destruct (@item_inv _ m p x Hp) as (Hlp & k & Hk & Hn).
    rewrite (@item_at _ (nan_where_zero m) p k Hlp Hk).
    cbn [data nan_where_zero]. rewrite nth_error_map, Hn.
    cbn [option_map]. now rewrite Hx.
Qed.

(** X14.  The beta map cannot be built from a coefficient matrix without
    rows or without axes ([IndexError]), nor from one whose first row has a
    number of coefficients that is neither the number of mask coordinates
    nor one ([ValueError]). *)
Theorem beta_map_failures (s : list nat) (c : coords) (b : ndarray spec_float) :
  (shape b = [] -> beta_map s c b = Raise IndexError)
  /\ (forall tl, shape b = 0 :: tl -> beta_map s c b = Raise IndexError)
  /\ (forall r len n,
         shape b = [S r; len] ->
         c <> [] -> rect n c -> length c = length s ->
         len <> n -> len <> 1 ->
         beta_map s c b = Raise ValueError).
Proof.
  split; [|split].
  - intros Hs. unfold beta_map, getrow. now rewrite Hs.
  - intros tl Hs. unfold beta_map, getrow. now rewrite Hs.
  - intros r len n Hs Hc Hr Hlen Hn H1.
    unfold beta_map.
    assert (getrow b 0%Z
            = Ok (mk_ndarray [len] (block (data b) (0 * size [len]) (size [len]))))
      as -> by exact (@getrow_ok _ b (S r) [len] 0 Hs ltac:(lia)).
    cbn [bind].
    unfold beta_map_dense.
    rewrite (@setitem_full_mismatch _ (np_zeros s) c _ n Hc Hr Hlen);
      [reflexivity|].
    now apply (@broadcast_to_1d_fail _ _ len n).
Qed.

Lemma beta_map_failures_witness :
  beta_map [2] [[0; 1]%Z] (mk_ndarray [0; 2] []) = Raise IndexError
  /\ beta_map [2] [[0; 1]%Z] (mk_ndarray [1; 3] [one; one; one])
     = Raise ValueError.
Proof.
  split.
  - apply (proj1 (proj2 (@beta_map_failures [2] [[0; 1]%Z]
                           (mk_ndarray [0; 2] []))) [2]).
    reflexivity.
  - apply (proj2 (proj2 (@beta_map_failures [2] [[0; 1]%Z]
                           (mk_ndarray [1; 3] [one; one; one]))) 0 3 2).
    + reflexivity.
    + discriminate.
    + repeat constructor.
    + reflexivity.
    + lia.
    + lia.
Defined.

(** ** The contrast vector *)

(** X13.  The contrast vector selects the first column of the design
    matrix: 1 in the first place, 0 in all others.  With a design matrix
    without columns there is no first place and the assignment is an
    [IndexError]. *)
Theorem contrast_selects_first {A : Type} `{Dtype A} (n_columns : nat) :
  (n_columns = 0 -> contrast n_columns = Raise IndexError)
  /\ (0 < n_columns ->
      contrast n_columns
      = Ok (mk_ndarray [n_columns] (one :: repeat zero (n_columns - 1)))).
Proof.
  split.
  - intros ->. reflexivity.
  - intros Hn. destruct n_columns as [|n]; [lia|].
    unfold contrast, setrow. cbn [shape np_zeros].
    change 0%Z with (Z.of_nat 0). rewrite norm_index_nat by lia.
    cbn. now rewrite Nat.sub_0_r, Nat.mul_1_r.
Qed.

Lemma contrast_selects_first_witness :
  @contrast Z _ 0 = Raise IndexError
  /\ @contrast Z _ 3 = Ok (mk_ndarray [3] (one :: repeat zero (3 - 1))).
Proof.
  split.
  - apply (proj1 (@contrast_selects_first Z _ 0)). reflexivity.
  - apply (proj2 (@contrast_selects_first Z _ 3)). lia.
Defined.

(** ** The confounds handed to Nilearn *)

Section ConfoundsFrame.
Context {V : Type}.
Implicit Types (d : dict V) (k : String.string).

Lemma dict_get_set_same d k v : dict_get (dict_set d k v) k = Some v.
Proof.
  induction d as [|[k' v'] d IH]; simpl.
  - now rewrite String.eqb_refl.
  - destruct (String.eqb_spec k' k) as [->|Hne]; simpl.
    + now rewrite String.eqb_refl.
    + destruct (String.eqb_spec k' k); [congruence | exact IH].
Qed.

Lemma dict_get_set_other d k v k0 :
  k <> k0 -> dict_get (dict_set d k v) k0 = dict_get d k0.
Proof.
  intros Hne. induction d as [|[k' v'] d IH]; simpl.
  - destruct (String.eqb_spec k k0); [congruence | reflexivity].
  - destruct (String.eqb_spec k' k) as [->|Hne']; simpl.
    + destruct (String.eqb_spec k k0); [congruence | reflexivity].
    + destruct (String.eqb_spec k' k0); [reflexivity | exact IH].
Qed.

Lemma keep_confound_other d lc k0 :
  fst lc <> k0 -> dict_get (keep_confound d lc) k0 = dict_get d k0.
Proof.
  intros Hne. unfold keep_confound.
  destruct (String.eqb (fst lc) "intercept"); [reflexivity|].
  now apply dict_get_set_other.
Qed.

Lemma fold_keep_other (l : list (String.string * V)) d k0 :
  ~ In k0 (map fst l) ->
  dict_get (fold_left keep_confound l d) k0 = dict_get d k0.
Proof.
  revert d; induction l as [|lc l IH]; intros d Hnot; simpl in *;
    [reflexivity|].
  rewrite IH by tauto.
  apply keep_confound_other. tauto.
Qed.

Lemma fold_keep_intercept (l : list (String.string * V)) d :
  dict_get (fold_left keep_confound l d) "intercept"%str
  = dict_get d "intercept"%str.
Proof.
  revert d; induction l as [|lc l IH]; intros d; simpl; [reflexivity|].
  rewrite IH. unfold keep_confound.
  destruct (String.eqb_spec (fst lc) "intercept"%str) as [E|Hne];
    [reflexivity|].
  now apply dict_get_set_other.
Qed.

Lemma fold_keep_in (l : list (String.string * V)) d k0 v :
  NoDup (map fst l) -> In (k0, v) l -> k0 <> "intercept"%str ->
  dict_get (fold_left keep_confound l d) k0 = Some v.
Proof.
  revert d; induction l as [|lc l IH]; intros d Hnd Hin Hk; simpl in *;
    [tauto|].
  inversion Hnd as [|? ? Hnot Hnd']; subst.
  destruct Hin as [->|Hin].
  - rewrite fold_keep_other by exact Hnot.
    unfold keep_confound. cbn [fst snd].
    destruct (String.eqb_spec k0 "intercept"%str); [congruence|].
    apply dict_get_set_same.
  - now apply IH.
Qed.
End ConfoundsFrame.

Lemma map_fst_combine_same {X Y : Type} (l : list X) (l' : list Y) :
  length l = length l' -> map fst (combine l l') = l.
Proof.
  revert l'; induction l as [|x l IH]; intros [|y l'] Hlen; simpl in *;
    try discriminate; [reflexivity|].
  f_equal. apply IH. lia.
Qed.

Section ConfoundsFrameContent.
Context {A : Type} `{Dtype A}.

(** X15.  The frame handed to Nilearn never has an ['intercept'] column.
    With one distinct label per column of the confound matrix, every other
    label is bound to exactly its column of the matrix. *)
Theorem confounds_df_drops_intercept
        (confound_labels : list String.string) (confounds : ndarray A) n q :
  wf confounds -> shape confounds = [n; q] ->
  length confound_labels = q -> NoDup confound_labels ->
  exists df,
    confounds_df confound_labels confounds = Some df
    /\ dict_get df "intercept"%str = None
    /\ forall j, j < q ->
         nth j confound_labels ""%str <> "intercept"%str ->
         exists col,
           dict_get df (nth j confound_labels ""%str) = Some col
           /\ shape col = [n]
           /\ forall i, i < n ->
                item col [Z.of_nat i]
                = item confounds [Z.of_nat i; Z.of_nat j]
                /\ item col [Z.of_nat i] <> None.
Proof.
  intros Hwf Hs Hlen Hnd.
  assert (length (data confounds) = n * q) as Hld
    by (unfold wf in Hwf; rewrite Hwf, Hs; cbn [size]; lia).
  set (Tr := transpose confounds).
  assert (length (data Tr) = q * n) as HlT.
  { unfold Tr. rewrite transpose_data_length, Hs. cbn [size]. lia. }
  set (col := fun r => mk_ndarray [n] (block (data Tr) (r * size [n]) (size [n]))).
  set (cols := map col (seq 0 q)).
  assert (length cols = q) as Hlc
    by (unfold cols; now rewrite length_map, length_seq).
  assert (confounds_df confound_labels confounds
          = Some (fold_left keep_confound (combine confound_labels cols) []))
    as Hdf.
  { unfold confounds_df, iter_rows. fold Tr.
    replace (shape Tr) with [q; n]
      by (unfold Tr; rewrite transpose_shape, Hs; reflexivity).
    reflexivity. }
  eexists. split; [exact Hdf|]. split.
  - now rewrite fold_keep_intercept.
  - intros j Hj Hne. exists (col j).
    split; [|split; [reflexivity|]].
    + apply fold_keep_in; auto.
      * rewrite map_fst_combine_same by lia. exact Hnd.
      * replace (col j) with (nth j cols (col 0)).
        -- rewrite <- combine_nth by lia.
           apply nth_In. rewrite length_combine. lia.
        -- unfold cols.
           rewrite (@nth_map_in _ _ col (seq 0 q) j 0 (col 0))
             by now rewrite length_seq.
           now rewrite seq_nth.
    + intros i Hi.
      rewrite (@item_1d A (col j) n i eq_refl Hi).
      rewrite (@item_2d A confounds n q i j Hs Hi Hj).
      cbn [data col]. rewrite size_one.
      rewrite nth_error_nth' with (d := zero) by (rewrite block_length; nia).
      rewrite nth_block by assumption.
      unfold Tr.
      rewrite (@transpose_2d_nth A _ confounds n q i j Hs Hi Hj).
      rewrite (nth_error_nth' (data confounds) zero) by nia.
      split; [reflexivity | discriminate].
Qed.
End ConfoundsFrameContent.

Lemma confounds_df_drops_intercept_witness :
  exists df,
    confounds_df ["x"; "intercept"; "y"]%str
                 (mk_ndarray [2; 3] [1; 2; 3; 4; 5; 6]%Z) = Some df
    /\ dict_get df "intercept"%str = None
    /\ exists col,
         dict_get df "y"%str = Some col
         /\ shape col = [2]
         /\ item col [1%Z] = Some 6%Z.
Proof.
  destruct (@confounds_df_drops_intercept Z _ ["x"; "intercept"; "y"]%str
              (mk_ndarray [2; 3] [1; 2; 3; 4; 5; 6]%Z) 2 3)
    as (df & Hdf & Hint & Hcols).
  - reflexivity.
  - reflexivity.
  - reflexivity.
  - repeat constructor; simpl; intuition discriminate.
  - destruct (Hcols 2 ltac:(lia) ltac:(discriminate))
      as (col & Hget & Hs & Hent).
    exists df. split; [exact Hdf|]. split; [exact Hint|].
    exists col. split; [exact Hget|]. split; [exact Hs|].
    exact (proj1 (Hent 1 ltac:(lia))).
Defined.

(** ** Leaving out the medial wall *)

Lemma map_nth_find_true {X : Type} (f : X -> bool) (l : list X) a dflt :
  map (fun k => nth (k - a) l dflt) (find_true a (map f l)) = filter f l.
Proof.
  revert a; induction l as [|x l IH]; intros a; simpl; [reflexivity|].
  assert (map (fun k => nth (k - a) (x :: l) dflt) (find_true (S a) (map f l))
          = filter f l) as Hrest.
  { rewrite <- (IH (S a)). apply map_ext_in. intros k Hk.
    apply find_true_In in Hk as (Hle & _).
    replace (k - a) with (S (k - S a)) by lia. reflexivity. }
  destruct (f x); simpl.
  - rewrite Nat.sub_diag. f_equal. exact Hrest.
  - exact Hrest.
Qed.

Lemma flat_map_block_cells {X : Type} (d : list X) (os : list nat) dflt :
  (forall k, In k os -> k < length d) ->
  flat_map (fun o => block d o 1) (map (fun o => o * 1) os)
  = map (fun k => nth k d dflt) os.
Proof.
  induction os as [|k os IH]; intros Hbound; [reflexivity|].
  cbn [map flat_map].
  rewrite Nat.mul_1_r.
  rewrite (@block_one X d k dflt) by (apply Hbound; simpl; auto).
  cbn [app]. f_equal. apply IH. intros k' Hk'. apply Hbound. simpl; auto.
Qed.

(** X16.  The array that is sorted by region holds exactly the parcellation
    entries that differ from the medial-wall label, in their original order;
    the medial-wall label itself never occurs in it. *)
Theorem non_medial_is_filter (parcellation : list Z) (medial_label : Z) :
  exists kept,
    non_medial parcellation medial_label = Ok kept
    /\ data kept = filter (fun l => negb (Z.eqb l medial_label)) parcellation
    /\ shape kept = [length (data kept)]
    /\ ~ In medial_label (data kept).
Proof.
  unfold non_medial, getitem_bool. cbn [shape length firstn].
  destruct (list_eq_dec Nat.eq_dec [length parcellation] [length parcellation])
    as [_|Hne]; [|congruence].
  set (f := fun l => negb (Z.eqb l medial_label)).
  set (m := mk_ndarray [length parcellation] (map f parcellation)).
  set (g := mk_ndarray [length parcellation] parcellation).
  assert (wf m) as Hwm
    by (unfold wf, m; cbn [shape data]; now rewrite length_map, size_one).
  assert (wf g) as Hwg by (unfold wf, g; cbn [shape data]; now rewrite size_one).
  assert (shape m <> []) as Hne by discriminate.
  destruct (np_where_spec Hwm Hne) as (Hw & Hlen & Hr & Hos).
  rewrite Hw. cbn [bind].
  assert (where_coords (shape m) (find_true 0 (data m)) <> []) as Hc
    by now apply where_coords_nonempty.
  rewrite (@getitem_ok Z g _ (shape m) [] (count_true (data m)) _ Hc Hr Hlen
             ltac:(reflexivity) Hos).
  assert (forall k, In k (find_true 0 (data m)) -> k < length parcellation)
    as Hbound.
  { intros k Hk. apply find_true_bound in Hk.
    cbn [data m] in Hk. rewrite length_map in Hk. lia. }
  assert (flat_map (fun o => block (data g) o (size []))
                   (map (fun o => o * size []) (find_true 0 (data m)))
          = filter f parcellation) as HD.
  { cbn [size data g].
    rewrite (flat_map_block_cells parcellation _ 0%Z Hbound).
    rewrite <- (map_nth_find_true f parcellation 0 0%Z).
    cbn [data m]. apply map_ext. intros k. now rewrite Nat.sub_0_r. }
  eexists. split; [reflexivity|]. cbn [data shape]. rewrite HD.
  split; [reflexivity|]. split.
  - f_equal. cbn [data m]. unfold count_true.
    clear. induction parcellation as [|x l IH]; [reflexivity|].
    simpl. destruct (f x); simpl; now rewrite IH.
  - intros Hin. apply filter_In in Hin as (_ & Hf).
    unfold f in Hf. now rewrite Z.eqb_refl in Hf.
Qed.
